(** * BinSync repository client: a shallow embedding of [binsync/core/client.py]

    The development follows the layout of the Python module:

    - [PyStr]   the string primitives the client relies on ([endswith],
                [in], [split], [strip], and the two regular expressions);
    - [Git]     the part of the version-control library the client calls;
    - [Binsync] the data the client imports from the rest of the package
                (State, User, Cache, Scheduler);
    - [Client]  the class itself, method by method, but for the network
                operations ([pull], [push]) and what is built on them;
    - [Spec]    the vocabulary of the properties, and [Scenario], a small
                repository to run the client on;
    - the properties of the client, one section per concern. *)

From stdpp Require Import gmap strings list fin_maps pretty.
From Stdlib Require Import ZArith Ascii.

Open Scope string_scope.
Open Scope list_scope.

(* ===================================================================== *)
(** * Python string primitives                                            *)
(* ===================================================================== *)

Module PyStr.

(** The newline character, ["\n"], the slash and the double quote. *)
Definition nl : ascii := "010"%char.
Definition slash : ascii := "/"%char.
Definition dquote : ascii := "034"%char.

(** [s.endswith(suf)] *)
Fixpoint endswith (s suf : string) : bool :=
  if String.eqb s suf then true
  else match s with
       | EmptyString => false
       | String _ s' => endswith s' suf
       end.

(** [sub in s] *)
Fixpoint contains (sub s : string) : bool :=
  if String.prefix sub s then true
  else match s with
       | EmptyString => false
       | String _ s' => contains sub s'
       end.

(** [s.split(sep)] for a one-character separator: never empty. *)
Fixpoint split (sep : ascii) (s : string) : list string :=
  match s with
  | EmptyString => [EmptyString]
  | String c s' =>
      if Ascii.eqb c sep then EmptyString :: split sep s'
      else match split sep s' with
           | [] => [String c EmptyString]
           | w :: ws => String c w :: ws
           end
  end.

(** [s.split("/")[-1]] *)
Definition last_segment (s : string) : string :=
  List.last (split slash s) EmptyString.

(** [s.lstrip("\n")], [s.rstrip("\n")] and [s.strip("\n")]. *)
Fixpoint lstrip_nl (s : string) : string :=
  match s with
  | EmptyString => EmptyString
  | String c s' => if Ascii.eqb c nl then lstrip_nl s' else s
  end.

Fixpoint rstrip_nl (s : string) : string :=
  match s with
  | EmptyString => EmptyString
  | String c s' =>
      match rstrip_nl s' with
      | EmptyString => if Ascii.eqb c nl then EmptyString else String c EmptyString
      | t => String c t
      end
  end.

Definition strip_nl (s : string) : string := rstrip_nl (lstrip_nl s).

(** The pattern of [_get_or_init_binsync_repo] is a slash, a greedy
    any-character group, and the literal [.git]. This is the part after
    the slash, matched at the start of [s]:
    the greedy star takes the longest run of non-newline characters
    that is still followed by [.git], and the group is that run. *)
Fixpoint dotstar_git (s : string) : option string :=
  match s with
  | EmptyString => None
  | String c s' =>
      match (if Ascii.eqb c nl then None else dotstar_git s') with
      | Some g => Some (String c g)
      | None => if String.prefix ".git" s then Some EmptyString else None
      end
  end.

(** [re.findall] of that pattern on [s]: the scan tries every position from
    the left; only the first match is kept here, which is what the
    subscript [[0]] reads. [None] is the [IndexError] of an empty list. *)
Fixpoint findall_slash_git_0 (s : string) : option string :=
  match s with
  | EmptyString => None
  | String c s' =>
      if Ascii.eqb c slash then
        match dotstar_git s' with
        | Some g => Some g
        | None => findall_slash_git_0 s'
        end
      else findall_slash_git_0 s'
  end.

(** The rest of the line after the first character of [s] up to the
    first newline: what a greedy any-character group captures at the
    end of a pattern. *)
Fixpoint line_prefix (s : string) : string :=
  match s with
  | EmptyString => EmptyString
  | String c s' => if Ascii.eqb c nl then EmptyString else String c (line_prefix s')
  end.

(** The characters a regular expression reads as operators. A text
    without any of them is a pattern that matches itself and nothing
    else; a text with one of them is another pattern, or no pattern at
    all. *)
Definition regex_special (c : ascii) : bool :=
  existsb (Ascii.eqb c) (String.list_ascii_of_string ".^$+?{}[]\|()*").

Definition regex_literal (s : string) : bool :=
  forallb (λ c, negb (regex_special c)) (String.list_ascii_of_string s).

(** [re.findall] of a pattern made of a group that holds the text
    [pre] and of a greedy any-character group, subscripted [[0][1]],
    for a text [pre] that is a literal ([regex_literal]): what follows
    the leftmost occurrence of [pre], up to the end of the line. [None]
    is the [IndexError]. *)
Fixpoint findall_after_0 (pre s : string) : option string :=
  if String.prefix pre s then
    Some (line_prefix (String.substring (String.length pre) (String.length s) s))
  else match s with
       | EmptyString => None
       | String _ s' => findall_after_0 pre s'
       end.

(** [os.path.join(a, b)] for a relative [b] on a POSIX host. *)
Definition path_join (a b : string) : string :=
  if String.eqb a EmptyString then b
  else if endswith a "/" then a +:+ b
  else a +:+ "/" +:+ b.

(** The character classes of [discover_ssh_agent], on characters below
    256: a decimal digit, and white space (the six ASCII ones, the four
    separators 28 to 31, the next-line character and the no-break
    space). *)
Definition is_digit (c : ascii) : bool :=
  let n := nat_of_ascii c in (48 <=? n)%nat && (n <=? 57)%nat.

Definition is_space (c : ascii) : bool :=
  let n := nat_of_ascii c in
  ((9 <=? n)%nat && (n <=? 13)%nat) || ((28 <=? n)%nat && (n <=? 32)%nat)
  || (n =? 133)%nat || (n =? 160)%nat.

(** The longest run of characters of a class at the start of [s]: what
    a greedy repetition of the class takes. *)
Fixpoint span (p : ascii → bool) (s : string) : string :=
  match s with
  | EmptyString => EmptyString
  | String c s' => if p c then String c (span p s') else EmptyString
  end.

(** [s] from its [n]-th character on. *)
Definition drop (n : nat) (s : string) : string :=
  String.substring n (String.length s) s.

(** One or more digits. *)
Definition digits (s : string) : option string :=
  match span is_digit s with
  | EmptyString => None
  | g => Some g
  end.

(** One or more digits and then a semicolon. The run of digits is the
    longest one: a shorter run is followed by a digit. *)
Definition digits_semicolon (s : string) : option string :=
  match digits s with
  | Some g => if String.prefix ";" (drop (String.length g) s) then Some g else None
  | None => None
  end.

(** A lazy any-character group and then a semicolon: the text before
    the first semicolon, which must come before the end of the line. *)
Fixpoint lazy_semicolon (s : string) : option string :=
  match s with
  | EmptyString => None
  | String c s' =>
      if Ascii.eqb c ";" then Some EmptyString
      else if Ascii.eqb c nl then None
      else match lazy_semicolon s' with
           | Some g => Some (String c g)
           | None => None
           end
  end.

(** One or more characters that are not white space. *)
Definition non_spaces (s : string) : option string :=
  match span (λ c, negb (is_space c)) s with
  | EmptyString => None
  | g => Some g
  end.

(** [re.search] of the literal [pre] followed by a pattern with one
    group, read with [group(1)]: the scan tries every position from the
    left, [group] telling what the rest of the pattern captures after
    [pre]. [None] is no match. *)
Fixpoint search (pre : string) (group : string → option string) (s : string)
    : option string :=
  match (if String.prefix pre s then group (drop (String.length pre) s) else None) with
  | Some g => Some g
  | None =>
      match s with
      | EmptyString => None
      | String _ s' => search pre group s'
      end
  end.

(** [int(s)] for a text of decimal digits. *)
Definition int (s : string) : Z :=
  fold_left (λ acc c, (10 * acc + (Z.of_nat (nat_of_ascii c) - 48))%Z)
    (String.list_ascii_of_string s) 0%Z.

End PyStr.

(* ===================================================================== *)
(** * Exceptions and the state-and-exception monad                        *)
(* ===================================================================== *)

(** The exceptions the client raises or lets through. The messages of
    the plain [Exception]s of the source are kept as constructors. *)
Inductive exn : Type :=
  | BadUsername (u : string)
  | RootAlreadyExists            (* Can't init this remote repo ... *)
  | RepoAlreadyExists            (* Could not initialize repository ... *)
  | NotABinsyncRepo              (* ... it must have a binsync/__root__ branch *)
  | FailedToConnect              (* Failed to connect or create a BinSync repo *)
  | LockContention (path : string)
  | ExternalUserCommitError (master user : string)
  | MetadataNotFoundError
  | ValueError (msg : string)
  | IndexError
  | KeyError (key : string)
  | StopIteration
  | AssertionError
  | NoSuchPathError
  | InvalidGitRepositoryError
  | GitCommandError
  | BadName
  | HookExecutionError
  | AttributeError (attr : string)
  | OtherError (msg : string).

Global Instance exn_eq_dec : EqDecision exn.
Proof. solve_decision. Defined.

(** A Python method body: it reads and writes a state [S], and either
    returns a value or raises. What was written before a [raise] stays
    written, as in Python. *)
Definition M (S A : Type) : Type := S -> (exn + A) * S.

Global Instance M_ret {S} : MRet (M S) := λ A (a : A) s, (inr a, s).

Global Instance M_bind {S} : MBind (M S) :=
  λ A B (f : A → M S B) (m : M S A) s,
    match m s with
    | (inl e, s') => (inl e, s')
    | (inr a, s') => f a s'
    end.

Definition raise {S A} (e : exn) : M S A := λ s, (inl e, s).
Definition get {S} : M S S := λ s, (inr s, s).
Definition gets {S A} (f : S → A) : M S A := λ s, (inr (f s), s).
Definition modify {S} (f : S → S) : M S unit := λ s, (inr tt, f s).

Global Instance M_fmap {S} : FMap (M S) :=
  λ A B (f : A → B) (m : M S A) s,
    match m s with
    | (inl e, s') => (inl e, s')
    | (inr a, s') => (inr (f a), s')
    end.

(** [try: body except <handled>: handler]: [handled] says which
    exceptions the [except] clause names; the others pass through. *)
Definition try_except {S A} (body : M S A) (handled : exn → bool)
    (handler : exn → M S A) : M S A :=
  λ s, match body s with
       | (inl e, s') => if handled e then handler e s' else (inl e, s')
       | (inr a, s') => (inr a, s')
       end.

(** Run a computation on a component of the state. *)
Definition zoom {S T A} (proj : S → T) (inj : T → S → S) (m : M T A) : M S A :=
  λ s, match m (proj s) with (r, t') => (r, inj t' s) end.

(* ===================================================================== *)
(** * The version-control library, as far as the client calls it         *)
(* ===================================================================== *)

(** A model of the library the client drives: references, commits,
    the index and the working tree, with the calls the client makes.
    A checkout is a clean switch, and the network is a map from URLs to
    repositories (see [World] below). *)
Module Git.

(** A tree maps a path to the text of the blob stored there. *)
Abbreviation Tree := (gmap string string).

Record Commit : Type := mkCommit {
  tree : Tree;
  authored_date : Z;
  message : string;
  parents : list nat;
  hexsha : nat;
}.

(** The three sorts of reference [repo.refs] lists. Only a remote
    reference has a remote name. *)
Inductive RefKind : Type :=
  | Head
  | RemoteReference (remote : string)
  | TagReference.

Record Reference : Type := mkRef {
  name : string;
  kind : RefKind;
  commit : Commit;
}.

Definition is_remote (ref : Reference) : bool :=
  match kind ref with RemoteReference _ => true | _ => false end.

Definition is_head (ref : Reference) : bool :=
  match kind ref with Head => true | _ => false end.

(** [ref.remote_name] raises on a reference that is not remote. *)
Definition remote_name (ref : Reference) : exn + string :=
  match kind ref with
  | RemoteReference n => inr n
  | _ => inl (ValueError "ref path does not point to a remote reference")
  end.

Record Repo : Type := mkRepo {
  refs : list Reference;      (* repo.refs, in the library's order *)
  objects : list Commit;      (* the commits of the object database *)
  head : string;              (* the branch HEAD names (may be unborn) *)
  index : Tree;
  working_tree : Tree;
  bare : bool;
  remotes : list string;
  hooks_pass : bool;          (* whether a commit hook lets commits through *)
}.

Global Instance Commit_eq_dec : EqDecision Commit.
Proof. solve_decision. Defined.
Global Instance RefKind_eq_dec : EqDecision RefKind.
Proof. solve_decision. Defined.
Global Instance Reference_eq_dec : EqDecision Reference.
Proof. solve_decision. Defined.
Global Instance Repo_eq_dec : EqDecision Repo.
Proof. solve_decision. Defined.

Definition set_refs (f : list Reference → list Reference) (r : Repo) : Repo :=
  mkRepo (f (refs r)) (objects r) (head r) (index r) (working_tree r)
         (bare r) (remotes r) (hooks_pass r).
Definition set_objects (f : list Commit → list Commit) (r : Repo) : Repo :=
  mkRepo (refs r) (f (objects r)) (head r) (index r) (working_tree r)
         (bare r) (remotes r) (hooks_pass r).
Definition set_head (h : string) (r : Repo) : Repo :=
  mkRepo (refs r) (objects r) h (index r) (working_tree r)
         (bare r) (remotes r) (hooks_pass r).
Definition set_index (f : Tree → Tree) (r : Repo) : Repo :=
  mkRepo (refs r) (objects r) (head r) (f (index r)) (working_tree r)
         (bare r) (remotes r) (hooks_pass r).
Definition set_working_tree (f : Tree → Tree) (r : Repo) : Repo :=
  mkRepo (refs r) (objects r) (head r) (index r) (f (working_tree r))
         (bare r) (remotes r) (hooks_pass r).

(** [repo.branches]: the local heads. *)
Definition branches (r : Repo) : list Reference := List.filter is_head (refs r).

Definition find_head (n : string) (r : Repo) : option Reference :=
  List.find (λ b, String.eqb (name b) n) (branches r).

(** The commit HEAD resolves to, if its branch is born. *)
Definition head_commit (r : Repo) : option Commit :=
  commit <$> find_head (head r) r.

(** Resolve a revision name: the word HEAD, or the name of a reference. *)
Definition rev_parse (rev : string) (r : Repo) : option Commit :=
  if String.eqb rev "HEAD" then head_commit r
  else commit <$> List.find (λ x, String.eqb (name x) rev) (refs r).

(** [repo.git.checkout(name)], a clean switch to a local branch: HEAD
    names it and the index and working tree show its tree. *)
Definition checkout (n : string) : M Repo unit := λ r,
  match find_head n r with
  | Some b =>
      (inr tt, set_working_tree (λ _, tree (commit b))
                 (set_index (λ _, tree (commit b)) (set_head n r)))
  | None => (inl GitCommandError, r)
  end.

(** [repo.create_head(path, rev)]: a new local head at [rev]. It fails
    if [rev] names nothing or the head exists elsewhere. *)
Definition create_head (path rev : string) : M Repo Reference := λ r,
  match rev_parse rev r with
  | None => (inl BadName, r)
  | Some c =>
      match find_head path r with
      | Some b =>
          if decide (commit b = c) then (inr b, r)
          else (inl (OtherError "reference already exists"), r)
      | None =>
          let b := mkRef path Head c in
          (inr b, set_refs (λ l, l ++ [b]) r)
      end
  end.

(** Point the local head [n] at [c], creating it when it is unborn. *)
Fixpoint move_head (n : string) (c : Commit) (l : list Reference) : list Reference :=
  match l with
  | [] => [mkRef n Head c]
  | b :: l' =>
      if is_head b && String.eqb (name b) n then mkRef n Head c :: l'
      else b :: move_head n c l'
  end.

(** [index.commit(msg)]: a commit of the index on top of HEAD; the
    branch HEAD names advances to it. [now] is the clock reading. *)
Definition index_commit (msg : string) (now : Z) : M Repo Commit := λ r,
  if hooks_pass r then
    let c := mkCommit (index r) now msg
               (match head_commit r with Some p => [hexsha p] | None => [] end)
               (length (objects r)) in
    (inr c, set_refs (move_head (head r) c) (set_objects (λ o, o ++ [c]) r))
  else (inl HookExecutionError, r).

(** [index.add([glob])] for a glob that ends in a star, as [dir/*]:
    every working-tree file whose path starts with what precedes the
    star is staged with its current contents. *)
Definition glob_prefix (glob : string) : string :=
  String.substring 0 (String.length glob - 1) glob.

Definition index_add_glob (glob : string) : M Repo unit :=
  modify (λ r,
    set_index
      (λ i, filter (λ kv, String.prefix (glob_prefix glob) kv.1 = true) (working_tree r) ∪ i)
      r).

(** [index.add([path])] for one file. *)
Definition index_add (path : string) : M Repo unit :=
  modify (λ r,
    match working_tree r !! path with
    | Some d => set_index (λ i, <[path := d]> i) r
    | None => r
    end).

(** [index.remove([path], working_tree=True)]. *)
Definition index_remove (path : string) : M Repo unit :=
  modify (λ r, set_working_tree (delete path) (set_index (delete path) r)).

(** [index.diff("HEAD")] is non-empty: the index and the tree of the
    HEAD commit differ. *)
Definition index_diff_HEAD : M Repo bool := λ r,
  match head_commit r with
  | Some c => (inr (bool_decide (index r ≠ tree c)), r)
  | None => (inl BadName, r)
  end.

(** [tree[path].data_stream.read().decode()] *)
Definition read_blob (t : Tree) (path : string) : exn + string :=
  match t !! path with
  | Some d => inr d
  | None => inl (KeyError path)
  end.

(** [repo.remote().refs]: the references of the remote named origin. *)
Definition remote_refs (r : Repo) : exn + list Reference :=
  if bool_decide ("origin" ∈ remotes r) then
    inr (List.filter (λ x, bool_decide (kind x = RemoteReference "origin")) (refs r))
  else inl (ValueError "Remote named origin did not exist").

(** [repo.git.checkout("--track", name)]: a new local branch named after
    the part of [name] that follows the remote, at the same commit,
    checked out. It fails when that branch exists. *)
Definition checkout_track (n : string) : M Repo unit := λ r,
  match List.find (λ x, is_remote x && String.eqb (name x) n) (refs r) with
  | None => (inl GitCommandError, r)
  | Some x =>
      match remote_name x with
      | inl e => (inl e, r)
      | inr rn =>
          let local := String.substring (S (String.length rn)) (String.length n) n in
          match find_head local r with
          | Some _ => (inl GitCommandError, r)
          | None =>
              (inr tt, set_working_tree (λ _, tree (commit x))
                         (set_index (λ _, tree (commit x))
                            (set_head local
                               (set_refs (λ l, l ++ [mkRef local Head (commit x)]) r))))
          end
      end
  end.

(** A repository just made by [git.Repo.init]. *)
Definition empty_repo : Repo :=
  mkRepo [] [] "master" ∅ ∅ false [] true.

(** What [git clone] leaves behind: every branch of the source as a
    reference of the remote origin, the remote HEAD, and a local head
    for the branch the source had checked out. *)
Definition cloned (src : Repo) : Repo :=
  let rrefs :=
    (λ b, mkRef ("origin/" +:+ name b) (RemoteReference "origin") (commit b))
      <$> branches src in
  let hd := match find_head (head src) src with
            | Some b => [mkRef (name b) Head (commit b)]
            | None => []
            end in
  let rhd := match find_head (head src) src with
             | Some b => [mkRef "origin/HEAD" (RemoteReference "origin") (commit b)]
             | None => []
             end in
  let t := match find_head (head src) src with
           | Some b => tree (commit b)
           | None => ∅
           end in
  mkRepo (hd ++ rhd ++ rrefs) (objects src) (head src) t t false ["origin"] (hooks_pass src).

(** A tree object as [list_files_in_tree] walks it: [tree.blobs], of
    which it reads the paths, and [tree.trees], the subtrees. *)
#[warnings="-register-all"] Inductive TreeObject : Type :=
  | mkTreeObject (blob_paths : list string) (subtrees : list TreeObject).

Definition blobs (t : TreeObject) : list string :=
  match t with mkTreeObject bs _ => bs end.

Definition trees (t : TreeObject) : list TreeObject :=
  match t with mkTreeObject _ ts => ts end.

End Git.

(* ===================================================================== *)
(** * Python dictionaries, in insertion order                             *)
(* ===================================================================== *)

Module PyDict.

Section dict.
Context {V : Type}.

Definition t : Type := list (string * V).

(** [d.get(k)] *)
Fixpoint lookup (k : string) (d : t) : option V :=
  match d with
  | [] => None
  | (k', v) :: d' => if String.eqb k' k then Some v else lookup k d'
  end.

(** [k in d] *)
Definition mem (k : string) (d : t) : bool :=
  match lookup k d with Some _ => true | None => false end.

(** [d[k] = v]: a present key keeps its place, a new key goes last. *)
Fixpoint set (k : string) (v : V) (d : t) : t :=
  match d with
  | [] => [(k, v)]
  | (k', v') :: d' =>
      if String.eqb k' k then (k, v) :: d' else (k', v') :: set k v d'
  end.

(** [del d[k]] for a present key. *)
Fixpoint del (k : string) (d : t) : t :=
  match d with
  | [] => []
  | (k', v') :: d' => if String.eqb k' k then d' else (k', v') :: del k d'
  end.

(** [d.values()] and [d.keys()] *)
Definition values (d : t) : list V := snd <$> d.
Definition keys (d : t) : list string := fst <$> d.
End dict.

Arguments t : clear implicits.

End PyDict.

(* ===================================================================== *)
(** * What the client imports from the rest of the package               *)
(* ===================================================================== *)

Module Binsync.

(** Modelled from the spec: the class [State] of [binsync.data.state],
    an opaque per-user snapshot of annotations of which the client
    reads [user] and reads and clears the dirty flag. *)
Record State : Type := mkState {
  user : string;
  _dirty : bool;
  annotations : list (string * string);
}.

(** Modelled from the spec: the constructor [State(user, client=client)]
    of the same module, an empty State owned by [user]; nothing of it
    being committed yet, it is dirty. *)
Definition State_init (u : string) : State := mkState u true [].

Definition set_dirty (b : bool) (s : State) : State :=
  mkState (user s) b (annotations s).

(** Modelled from the spec: [binsync.data.User], a value derived from
    the metadata of a user branch, carrying at least the username. *)
Record User : Type := mkUser { username : string }.

Global Instance State_eq_dec : EqDecision State.
Proof. solve_decision. Defined.
Global Instance User_eq_dec : EqDecision User.
Proof. solve_decision. Defined.

(** What [state.dump(index)] asks of the client: the calls it makes to
    [add_data] and [remove_data]. *)
Inductive IndexOp : Type :=
  | AddData (path data : string)
  | RemoveData (path : string).

(** The host-application interface of the spec: the state module, the
    user module and the TOML loader. They are the parameters of the
    client. *)
Class Host : Type := {
  Metadata : Type;
  (** [State.parse(tree, version=version, client=client)] *)
  State_parse : Git.Tree → option nat → exn + State;
  (** [state.dump(index)] *)
  State_dump : State → list IndexOp;
  (** [load_toml_from_file(tree, filename, client=client)] *)
  load_toml_from_file : Git.Tree → string → exn + Metadata;
  (** [User.from_metadata(metadata)] *)
  User_from_metadata : Metadata → exn + User;
}.

(** The values the atomic operations return. [VNone] is Python's None. *)
Inductive value : Type :=
  | VNone
  | VState (s : State)
  | VUsers (l : list User)
  | VBool (b : bool).

Global Instance value_eq_dec : EqDecision value.
Proof. solve_decision. Defined.

(** Modelled from the spec: the priority classes of
    [binsync.core.scheduler.SchedSpeed]; each of them is a true value. *)
Inductive SchedSpeed : Type := FAST | AVERAGE | SLOW.

(** The atomic operations, by qualified name. *)
Inductive Method : Type :=
  | commit_state_m | users_m | get_state_m | pull_m | push_m | has_remote_m.

Global Instance Method_eq_dec : EqDecision Method.
Proof. solve_decision. Defined.

(** The keyword arguments the wrapper and the caches look at. What a
    caller passes by position is invisible to them; the model passes
    every argument by keyword, [no_cache] absent meaning false. *)
Record kwargs : Type := mkKwargs {
  kw_user : option string;
  kw_version : option nat;
  kw_priority : option SchedSpeed;
  kw_no_cache : option bool;
}.

Definition with_user (u : option string) (kw : kwargs) : kwargs :=
  mkKwargs u (kw_version kw) (kw_priority kw) (kw_no_cache kw).

(** Modelled from the spec: the class [Cache] of [binsync.core.cache].
    The state cache is keyed by user and version, the users cache
    holds one list. A lookup that finds nothing answers None. *)
Record Cache : Type := mkCache {
  state_cache : gmap (string * option nat) value;
  users_cache : value;
}.

(** Modelled from the spec: the constructor and the four methods of
    [Cache] the client calls, [get_state], [set_state], [users] and
    [set_users]; they ignore the keywords that are not part of the key. *)
Definition Cache_init : Cache := mkCache ∅ VNone.

Definition cache_key (kw : kwargs) : string * option nat :=
  (default EmptyString (kw_user kw), kw_version kw).

Definition Cache_get_state (kw : kwargs) (c : Cache) : value :=
  default VNone (state_cache c !! cache_key kw).

Definition Cache_set_state (v : value) (kw : kwargs) (c : Cache) : Cache :=
  mkCache (<[cache_key kw := v]> (state_cache c)) (users_cache c).

Definition Cache_users (kw : kwargs) (c : Cache) : value := users_cache c.

Definition Cache_set_users (v : value) (kw : kwargs) (c : Cache) : Cache :=
  mkCache (state_cache c) v.

(** Modelled from the spec: the class [Scheduler] of
    [binsync.core.scheduler], a single worker that runs one job at a
    time. The model keeps the log of the jobs submitted; a job is run
    at once by [schedule_and_wait_job], whose caller waits for the
    result anyway. *)
Record Scheduler : Type := mkScheduler {
  worker_started : bool;
  submitted : list (Method * SchedSpeed);
}.

Definition Scheduler_init : Scheduler := mkScheduler false [].

Definition start_worker_thread (s : Scheduler) : Scheduler :=
  mkScheduler true (submitted s).

Definition enqueue (m : Method) (p : SchedSpeed) (s : Scheduler) : Scheduler :=
  mkScheduler (worker_started s) (submitted s ++ [(m, p)]).

End Binsync.

(* ===================================================================== *)
(** * The client                                                          *)
(* ===================================================================== *)

Module Client.
Import Git Binsync.

Definition BINSYNC_BRANCH_PREFIX : string := "binsync".
Definition BINSYNC_ROOT_BRANCH : string := BINSYNC_BRANCH_PREFIX +:+ "/__root__".

Module ConnectionWarnings.
Definition HASH_MISMATCH : Z := 0.
End ConnectionWarnings.

(** The attributes of a [Client] object. [repo] is [None] until the
    repository is attached, as in [__init__]. *)
Record Client : Type := mkClient {
  master_user : string;
  repo_root : string;
  binary_hash : string;
  remote : string;
  repo : option Repo;
  repo_lock : option string;
  ssh_agent_pid : option Z;
  ssh_auth_sock : option string;
  connection_warnings : list Z;
  cache : Cache;
  scheduler : Scheduler;
  _commit_interval : Z;
  _last_push_ts : option Z;
  last_push_attempt_ts : option Z;
  _last_pull_ts : option Z;
  last_pull_attempt_ts : option Z;
  _last_commit_ts : option Z;
  active_remote : bool;
}.

Definition set_repo_root (x : string) (c : Client) : Client :=
  mkClient (master_user c) x (binary_hash c) (remote c) (repo c) (repo_lock c)
    (ssh_agent_pid c) (ssh_auth_sock c) (connection_warnings c) (cache c)
    (scheduler c) (_commit_interval c) (_last_push_ts c) (last_push_attempt_ts c)
    (_last_pull_ts c) (last_pull_attempt_ts c) (_last_commit_ts c) (active_remote c).
Definition set_repo (x : option Repo) (c : Client) : Client :=
  mkClient (master_user c) (repo_root c) (binary_hash c) (remote c) x (repo_lock c)
    (ssh_agent_pid c) (ssh_auth_sock c) (connection_warnings c) (cache c)
    (scheduler c) (_commit_interval c) (_last_push_ts c) (last_push_attempt_ts c)
    (_last_pull_ts c) (last_pull_attempt_ts c) (_last_commit_ts c) (active_remote c).
Definition set_repo_lock (x : option string) (c : Client) : Client :=
  mkClient (master_user c) (repo_root c) (binary_hash c) (remote c) (repo c) x
    (ssh_agent_pid c) (ssh_auth_sock c) (connection_warnings c) (cache c)
    (scheduler c) (_commit_interval c) (_last_push_ts c) (last_push_attempt_ts c)
    (_last_pull_ts c) (last_pull_attempt_ts c) (_last_commit_ts c) (active_remote c).
Definition set_connection_warnings (x : list Z) (c : Client) : Client :=
  mkClient (master_user c) (repo_root c) (binary_hash c) (remote c) (repo c) (repo_lock c)
    (ssh_agent_pid c) (ssh_auth_sock c) x (cache c)
    (scheduler c) (_commit_interval c) (_last_push_ts c) (last_push_attempt_ts c)
    (_last_pull_ts c) (last_pull_attempt_ts c) (_last_commit_ts c) (active_remote c).
Definition set_cache (x : Cache) (c : Client) : Client :=
  mkClient (master_user c) (repo_root c) (binary_hash c) (remote c) (repo c) (repo_lock c)
    (ssh_agent_pid c) (ssh_auth_sock c) (connection_warnings c) x
    (scheduler c) (_commit_interval c) (_last_push_ts c) (last_push_attempt_ts c)
    (_last_pull_ts c) (last_pull_attempt_ts c) (_last_commit_ts c) (active_remote c).
Definition set_scheduler (x : Scheduler) (c : Client) : Client :=
  mkClient (master_user c) (repo_root c) (binary_hash c) (remote c) (repo c) (repo_lock c)
    (ssh_agent_pid c) (ssh_auth_sock c) (connection_warnings c) (cache c)
    x (_commit_interval c) (_last_push_ts c) (last_push_attempt_ts c)
    (_last_pull_ts c) (last_pull_attempt_ts c) (_last_commit_ts c) (active_remote c).
Definition set_last_commit_ts (x : option Z) (c : Client) : Client :=
  mkClient (master_user c) (repo_root c) (binary_hash c) (remote c) (repo c) (repo_lock c)
    (ssh_agent_pid c) (ssh_auth_sock c) (connection_warnings c) (cache c)
    (scheduler c) (_commit_interval c) (_last_push_ts c) (last_push_attempt_ts c)
    (_last_pull_ts c) (last_pull_attempt_ts c) x (active_remote c).

(** Run a library call on [self.repo]. *)
Definition on_repo {A} (m : M Repo A) : M Client A := λ c,
  match repo c with
  | None => (inl (AttributeError "repo"), c)
  | Some r => match m r with (res, r') => (res, set_repo (Some r') c) end
  end.

(** [for x in l: body(x)] *)
Fixpoint for_each {S A} (l : list A) (body : A → M S unit) : M S unit :=
  match l with
  | [] => mret tt
  | x :: l' => body x;; for_each l' body
  end.

(** What lies outside the process: the repositories on the local disk
    by path, the repositories that can be cloned by URL, and the lock
    files that are held. *)
Record World : Type := mkWorld {
  disk : gmap string Repo;
  hosted : gmap string Repo;
  locks : gset string;
}.

(** A method of [self] run with another object [X] beside it (the
    world, or an argument passed by reference), and a computation on
    that object run beside [self]. *)
Definition self_ {X A} (m : M Client A) : M (Client * X) A :=
  zoom fst (λ c s, (c, s.2)) m.
Definition beside_ {X A} (m : M X A) : M (Client * X) A :=
  zoom snd (λ w s, (s.1, w)) m.

(** [git.Repo(path)] *)
Definition Repo_open (path : string) : M World Repo := λ w,
  match disk w !! path with
  | Some r => (inr r, w)
  | None => (inl NoSuchPathError, w)
  end.

(** [git.Repo.init(path)] *)
Definition Repo_init (path : string) : M World Repo := λ w,
  (inr empty_repo, mkWorld (<[path := empty_repo]> (disk w)) (hosted w) (locks w)).

(** [git.Repo.clone_from(url, path, env=env)] *)
Definition clone_from (url path : string) (env : gmap string string) : M World Repo := λ w,
  match hosted w !! url, disk w !! path with
  | Some src, None =>
      (inr (cloned src), mkWorld (<[path := cloned src]> (disk w)) (hosted w) (locks w))
  | _, _ => (inl GitCommandError, w)
  end.

(** [FileLock(path).acquire(timeout=0)] *)
Definition lock_acquire (path : string) : M World unit := λ w,
  if bool_decide (path ∈ locks w) then (inl (LockContention path), w)
  else (inr tt, mkWorld (disk w) (hosted w) ({[path]} ∪ locks w)).

(** ** Properties *)

Definition user_branch_name (self : Client) : string :=
  BINSYNC_BRANCH_PREFIX +:+ "/" +:+ master_user self.

(** ** Initializers *)

(** The [try] looks for a local branch whose name ends with the user
    branch name; [None] of [List.find] is the StopIteration of [next],
    and the [Some] case is the [else] clause. *)
Definition _get_or_init_user_branch : M Client unit :=
  self ← get;
  on_repo (
    r ← get;
    branch ←
      match List.find (λ o, PyStr.endswith (name o) (user_branch_name self)) (branches r) with
      | None => create_head (user_branch_name self) BINSYNC_ROOT_BRANCH
      | Some b =>
          if is_remote b then create_head (user_branch_name self) "HEAD"
          else mret b
      end;
    checkout (name branch)).

(** The name of the remote is spliced into the pattern as it is; it
    is read here as a literal, which it is for a name without special
    characters such as [origin]. *)
Definition _localize_remote_branches : M Client unit :=
  self ← get;
  on_repo (
    r ← get;
    match remote_refs r with
    | inl (ValueError _) => mret tt
    | inl e => raise e
    | inr remote_branches =>
        let local_branches := name <$> branches r in
        for_each remote_branches (λ branch,
          if PyStr.contains "HEAD" (name branch) then mret tt
          else match PyStr.findall_after_0 (remote self +:+ "/") (name branch) with
               | None => mret tt
               | Some local_name =>
                   if bool_decide (local_name ∈ local_branches) then mret tt
                   else try_except (checkout_track (name branch))
                          (λ e, bool_decide (e = GitCommandError))
                          (λ _, mret tt)
               end)
    end).

(** The two files are written below [repo_root], the working tree. *)
Definition _setup_repo (now : Z) : M Client unit :=
  self ← get;
  on_repo (
    modify (set_working_tree (<[".gitignore" := ".git/*" +:+ String PyStr.nl EmptyString]>));;
    modify (set_working_tree (<["binary_hash" := binary_hash self]>));;
    index_add ".gitignore";;
    index_add "binary_hash";;
    _ ← index_commit "Root commit" now;
    _ ← create_head BINSYNC_ROOT_BRANCH "HEAD";
    mret tt).

(** [str] of an integer is its decimal text, [str] of a string is the
    string. *)
Definition ssh_agent_env (self : Client) : gmap string string :=
  match ssh_agent_pid self, ssh_auth_sock self with
  | Some pid, Some sock =>
      {[ "SSH_AGENT_PID" := pretty pid; "SSH_AUTH_SOCK" := sock ]}
  | _, _ => ∅
  end.

(** The subscript [[0]] of the list of matching references raises
    IndexError on the empty list. *)
Definition _get_stored_hash : M Client string :=
  on_repo (
    r ← get;
    match List.filter (λ ref, PyStr.endswith (name ref) BINSYNC_ROOT_BRANCH) (refs r) with
    | [] => raise IndexError
    | branch :: _ =>
        match read_blob (tree (commit branch)) "binary_hash" with
        | inl e => raise e
        | inr data => mret (PyStr.strip_nl data)
        end
    end).

Definition clone (remote_url : string) (no_head_check : bool) : M (Client * World) Repo :=
  self ← gets fst;
  let env := ssh_agent_env self in
  repo ← beside_ (clone_from remote_url (repo_root self) env);
  if no_head_check then mret repo
  else match try_except
               (create_head BINSYNC_ROOT_BRANCH (remote self +:+ "/" +:+ BINSYNC_ROOT_BRANCH))
               (λ e, bool_decide (e = BadName))
               (λ _, raise NotABinsyncRepo) repo with
       | (inl e, _) => raise e
       | (inr _, repo') => mret repo'
       end.

(** [if x:] on an optional string: None and the empty string are false. *)
Definition truthy (x : option string) : bool :=
  match x with
  | Some s => negb (String.eqb s EmptyString)
  | None => false
  end.

Definition has_root_branch (r : Repo) : bool :=
  existsb (λ b, String.eqb (name b) BINSYNC_ROOT_BRANCH) (branches r).

(** The attach procedure. It returns [self.repo]. *)
Definition _get_or_init_binsync_repo (remote_url : option string) (init_repo : bool)
    (now : Z) : M (Client * World) (option Repo) :=
  (if truthy remote_url then
     let url := default EmptyString remote_url in
     self ← gets fst;
     (if String.eqb (repo_root self) EmptyString then
        match PyStr.findall_slash_git_0 url with
        | None => raise IndexError
        | Some root => self_ (modify (set_repo_root root))
        end
      else mret tt);;
     r ← clone url init_repo;
     self_ (modify (set_repo (Some r)));;
     if init_repo then
       if has_root_branch r then raise RootAlreadyExists
       else self_ (_setup_repo now)
     else mret tt
   else
     try_except
       (self ← gets fst;
        r ← beside_ (Repo_open (repo_root self));
        self_ (modify (set_repo (Some r)));;
        self_ _localize_remote_branches;;
        if init_repo then raise RepoAlreadyExists
        else
          self ← gets fst;
          if negb (from_option has_root_branch false (repo self))
          then raise NotABinsyncRepo
          else mret tt)
       (λ e, bool_decide (e = NoSuchPathError)
             || bool_decide (e = InvalidGitRepositoryError))
       (λ _,
          if init_repo then
            self ← gets fst;
            r ← beside_ (Repo_init (repo_root self));
            self_ (modify (set_repo (Some r)));;
            self_ (_setup_repo now)
          else raise FailedToConnect));;
  stored ← self_ _get_stored_hash;
  self ← gets fst;
  (if bool_decide (stored ≠ binary_hash self) then
     self_ (modify (set_connection_warnings
                      (connection_warnings self ++ [ConnectionWarnings.HASH_MISMATCH])))
   else mret tt);;
  bare_ ← self_ (on_repo (gets bare));
  (if (bare_ : bool) then raise AssertionError else mret tt);;
  self ← gets fst;
  let lock := repo_root self +:+ "/.git/binsync.lock" in
  self_ (modify (set_repo_lock (Some lock)));;
  beside_ (lock_acquire lock);;
  gets (λ s, repo s.1).

(** [Client(master_user, repo_root, binary_hash, ...)]: the object, or
    the exception that aborts the construction. *)
Definition __init__ (master_user repo_root binary_hash : string) (remote : string)
    (commit_interval : Z) (init_repo : bool) (remote_url : option string)
    (ssh_agent_pid : option Z) (ssh_auth_sock : option string) (now : Z)
    : M World Client := λ w,
  let self := mkClient master_user repo_root binary_hash remote None None
                ssh_agent_pid ssh_auth_sock [] Cache_init Scheduler_init
                commit_interval None None None None None true in
  let body : M (Client * World) unit :=
    (if PyStr.endswith master_user "/" || PyStr.contains "__root__" master_user
     then raise (BadUsername master_user) else mret tt);;
    r ← _get_or_init_binsync_repo remote_url init_repo now;
    self_ (modify (set_repo r));;
    self_ (modify (λ c, set_scheduler (start_worker_thread (scheduler c)) c));;
    self_ _get_or_init_user_branch in
  match body (self, w) with
  | (res, (self', w')) =>
      (match res with inl e => inl e | inr _ => inr self' end, w')
  end.

(** ** Reference selection *)

(** The [for] loop of [_get_best_refs] over the references still to
    visit, [candidates] being the dictionary built so far. The test
    [not ref.is_remote() or ref.remote_name != self.remote] reads the
    remote name only of a remote reference. *)
Fixpoint _get_best_refs_loop (self : Client) (l : list Reference)
    (candidates : PyDict.t Reference) : exn + PyDict.t Reference :=
  match l with
  | [] => inr candidates
  | ref :: l' =>
      if negb (PyStr.contains (BINSYNC_BRANCH_PREFIX +:+ "/") (name ref))
      then _get_best_refs_loop self l' candidates
      else
        let branch_name := PyStr.last_segment (name ref) in
        if PyDict.mem branch_name candidates then
          if negb (is_remote ref) then _get_best_refs_loop self l' candidates
          else match remote_name ref with
               | inl e => inl e
               | inr n =>
                   if bool_decide (n ≠ remote self)
                   then _get_best_refs_loop self l' candidates
                   else _get_best_refs_loop self l'
                          (PyDict.set branch_name ref candidates)
               end
        else _get_best_refs_loop self l' (PyDict.set branch_name ref candidates)
  end.

Definition _get_best_refs (self : Client) (repo : Repo) : exn + PyDict.t Reference :=
  _get_best_refs_loop self (refs repo) [].

(** [max(options, key=...)]: the first of the greatest. *)
Fixpoint py_max {A} (key : A → Z) (best : A) (l : list A) : A :=
  match l with
  | [] => best
  | x :: l' => py_max key (if (key best <? key x)%Z then x else best) l'
  end.

(** The tree of the newest head among the references whose name ends
    with the branch name of [user]. *)
Definition _get_tree (self : Client) (user : string) (repo : Repo) : exn + Tree :=
  let options :=
    List.filter
      (λ ref, PyStr.endswith (name ref) (BINSYNC_BRANCH_PREFIX +:+ "/" +:+ user))
      (refs repo) in
  match options with
  | [] => inl (ValueError ("No such user " +:+ user +:+ " found in repository"))
  | o :: os =>
      let best := py_max (λ ref, authored_date (commit ref)) o os in
      let bct := tree (commit best) in
      inr bct
  end.


(** [add_data] and [remove_data] write below the working tree of the
    repository of [index], which is [self.repo]. *)
Definition add_data (path data : string) : M Client unit :=
  on_repo (modify (set_working_tree (<[path := data]>));; index_add path).

Definition remove_data (path : string) : M Client unit :=
  on_repo (index_remove path).

Section AtomicAPI.
Context {H : Host}.

Definition _checkout_to_master_user : M Client unit :=
  self ← get;
  on_repo (checkout (user_branch_name self)).

(** [state.dump(index)], through the two methods it calls back. *)
Definition dump (state : State) : M Client unit :=
  for_each (State_dump state) (λ op,
    match op with
    | AddData path data => add_data path data
    | RemoveData path => remove_data path
    end).

(** ** Atomic public API: the functions the decorator receives.
    [commit_state_f] runs on the client and on the State object it
    is given, whose dirty flag it clears. *)

Definition commit_state_f (msg : string) (now : Z) : M (Client * State) value :=
  self ← gets fst;
  state ← gets snd;
  if bool_decide (master_user self ≠ user state) then
    raise (ExternalUserCommitError (master_user self) (user state))
  else
    self_ _checkout_to_master_user;;
    branches_ ← self_ (on_repo (gets branches));
    match List.find (λ o, String.eqb (name o) (user_branch_name self)) branches_ with
    | None => raise StopIteration
    | Some master_user_branch =>
        (* dump the state *)
        self_ (dump state);;
        (* commit changes *)
        self_ (on_repo (index_add_glob (PyStr.path_join (user state) "*")));;
        diff ← self_ (on_repo index_diff_HEAD);
        if negb (diff : bool) then mret VNone
        else
          (* commit if there is any difference *)
          attempt ← try_except
                       (Some <$> self_ (on_repo (index_commit msg now)))
                       (λ _, true)
                       (λ _, mret None);
          match attempt with
          | None => mret VNone
          | Some commit_ =>
              self_ (modify (set_last_commit_ts (Some now)));;
              self_ (on_repo (modify (set_refs
                       (move_head (name master_user_branch) commit_))));;
              beside_ (modify (set_dirty false));;
              mret VNone
          end
    end.

(** The loop of [users]: a reference whose metadata cannot be loaded
  is skipped, whatever the exception. *)
Definition users_loop (l : list Reference) : list User :=
  omap (λ ref,
    match load_toml_from_file (tree (commit ref)) "metadata.toml" with
    | inl _ => None
    | inr metadata =>
        match User_from_metadata metadata with
        | inl _ => None
        | inr user => Some user
        end
    end) l.

Definition users_f : M Client value :=
  self ← get;
  match repo self with
  | None => raise (AttributeError "refs")
  | Some repo =>
      match _get_best_refs self repo with
      | inl e => raise e
      | inr best => mret (VUsers (users_loop (PyDict.values best)))
      end
  end.

(** The handler of MetadataNotFoundError leaves [state] at None
  unless the user asked for is the master user. *)
Definition get_state_f (user : option string) (version : option nat) : M Client value :=
  self ← get;
  let user := match user with None => master_user self | Some u => u end in
  match repo self with
  | None => raise (AttributeError "refs")
  | Some repo =>
      let state := VNone in
      try_except
        (match _get_tree self user repo with
         | inl e => raise e
         | inr t =>
             match State_parse t version with
             | inl e => raise e
             | inr s => mret (VState s)
             end
         end)
        (λ e, bool_decide (e = MetadataNotFoundError))
        (λ _,
           if bool_decide (user = master_user self)
           then mret (VState (State_init (master_user self)))
           else mret state)
  end.

(** ** Caching functions: the operation is told by its qualified
  name, and a missing [user] is replaced by the master user. *)

Definition _check_cache_ (f : Method) (kw : kwargs) (self : Client) : value :=
  match f with
  | get_state_m =>
      let kw := match kw_user kw with
                | None => with_user (Some (master_user self)) kw
                | Some _ => kw
                end in
      Cache_get_state kw (cache self)
  | users_m => Cache_users kw (cache self)
  | _ => VNone
  end.

Definition _set_cache (f : Method) (ret_value : value) (kw : kwargs) : M Client unit :=
  modify (λ self,
    match f with
    | get_state_m =>
        let kw := match kw_user kw with
                  | None => with_user (Some (master_user self)) kw
                  | Some _ => kw
                  end in
        set_cache (Cache_set_state ret_value kw (cache self)) self
    | users_m => set_cache (Cache_set_users ret_value kw (cache self)) self
    | _ => self
    end).

(** ** The decorator *)

(** Modelled from the spec: [scheduler.schedule_and_wait_job] logs the
    job, lets the worker run it, and hands its value or its failure
    to the caller. *)
Definition schedule_and_wait_job {X} (f : Method) (job : M (Client * X) value)
    (priority : SchedSpeed) : M (Client * X) value :=
  self_ (modify (λ self, set_scheduler (enqueue f priority (scheduler self)) self));;
  job.

(** [atomic_git_action(f)]: [name_] is the qualified name of [f]. A
  cached None is no hit: the test is [cache_item is not None]. *)
Definition atomic_git_action {X} (name_ : Method) (f : kwargs → M (Client * X) value)
    (kw : kwargs) : M (Client * X) value :=
  let no_cache := default false (kw_no_cache kw) in
  let queue_it_up : M (Client * X) value :=
    (* non cache available, queue it up! *)
    let priority := default SLOW (kw_priority kw) in
    ret_val ← schedule_and_wait_job name_ (f kw) priority;
    (* set cache *)
    self_ (_set_cache name_ ret_val kw);;
    mret ret_val in
  if negb no_cache then
    (* cache check *)
    cache_item ← gets (λ s, _check_cache_ name_ kw s.1);
    if bool_decide (cache_item ≠ VNone) then mret cache_item
    else queue_it_up
  else queue_it_up.

Definition commit_state (msg : string) (now : Z) (kw : kwargs) : M (Client * State) value :=
  atomic_git_action commit_state_m (λ _, commit_state_f msg now) kw.

Definition users (kw : kwargs) : M (Client * unit) value :=
  atomic_git_action users_m (λ _, self_ users_f) kw.

Definition get_state (kw : kwargs) : M (Client * unit) value :=
  atomic_git_action get_state_m
    (λ kw, self_ (get_state_f (kw_user kw) (kw_version kw))) kw.

End AtomicAPI.

(** ** The remaining methods that do not reach the network *)

(** The body of [has_remote]. The test [self.remote and any(...)]
    reads [self.repo.remotes] only when [self.remote] is a true value,
    that is, a non-empty name. *)
Definition has_remote_f : M Client value :=
  self ← get;
  if negb (String.eqb (remote self) EmptyString) then
    match repo self with
    | None => raise (AttributeError "remotes")
    | Some r =>
        if existsb (λ n, String.eqb n (remote self)) (remotes r)
        then mret (VBool (active_remote self))
        else mret (VBool false)
    end
  else mret (VBool false).

(** [has_remote] is a property: it is read without arguments, so the
    wrapper sees no keyword at all. *)
Definition has_remote : M (Client * unit) value :=
  atomic_git_action has_remote_m (λ _, self_ has_remote_f)
    (mkKwargs None None None None).

(** [self.repo.close()] and then [del self.repo]: the attribute is
    gone, and reading it fails from then on. *)
Definition close : M Client unit :=
  on_repo (mret tt);;
  modify (set_repo None).

(** The [while] loop of [list_files_in_tree]: [stack.pop()] takes the
    last tree of the stack, its blobs are appended to the list and its
    subtrees pushed. [fuel] bounds the number of turns; [None] is a
    loop cut short. *)
Fixpoint list_files_loop (fuel : nat) (stack : list TreeObject)
    (file_list : list string) : option (list string) :=
  match last stack with
  | None => Some file_list
  | Some tree =>
      match fuel with
      | O => None
      | S fuel' =>
          list_files_loop fuel' (removelast stack ++ trees tree)
            (file_list ++ blobs tree)
      end
  end.

Definition list_files_in_tree (fuel : nat) (base_tree : TreeObject)
    : option (list string) :=
  list_files_loop fuel [base_tree] [].

(** The dictionary comprehension keeps the order of [ref_dict]. *)
Definition _get_commits_for_users (self : Client) (repo : Repo) : exn + PyDict.t nat :=
  match _get_best_refs self repo with
  | inl e => inl e
  | inr ref_dict =>
      (* ignore the _root_ branch *)
      let ref_dict :=
        if PyDict.mem BINSYNC_ROOT_BRANCH ref_dict
        then PyDict.del BINSYNC_ROOT_BRANCH ref_dict
        else ref_dict in
      let commit_dict := (λ kv, (kv.1, hexsha (commit kv.2))) <$> ref_dict in
      inr commit_dict
  end.

(** [discover_ssh_agent], from what the command it runs left behind:
    its return code and the two texts it printed. The result is the
    pair the method returns, both halves None or both set. *)
Definition discover_ssh_agent (returncode : Z) (stdout stderr : string)
    : exn + (option Z * option string) :=
  if negb (returncode =? 0)%Z || negb (String.eqb stderr EmptyString) then
    inl (OtherError "RuntimeError: Failed to discover SSH agent")
  else
    (* parse output *)
    match PyStr.search "Found ssh-agent at " PyStr.digits stdout with
    | None =>
        match PyStr.search "SSH_AGENT_PID=" PyStr.digits_semicolon stdout with
        | None => inr (None, None)
        | Some g =>
            let ssh_agent_pid := PyStr.int g in
            match PyStr.search "SSH_AUTH_SOCK=" PyStr.lazy_semicolon stdout with
            | None => inr (None, None)
            | Some ssh_agent_sock => inr (Some ssh_agent_pid, Some ssh_agent_sock)
            end
        end
    | Some g =>
        let ssh_agent_pid := PyStr.int g in
        match PyStr.search "Found ssh-agent socket at " PyStr.non_spaces stdout with
        | None => inr (None, None)
        | Some ssh_agent_sock => inr (Some ssh_agent_pid, Some ssh_agent_sock)
        end
    end.

End Client.

(* ===================================================================== *)
(** * Vocabulary of the properties                                        *)
(* ===================================================================== *)

Module Spec.
Import Git Binsync Client.

(** The two ways a username is unfit, in the words of the naming rule. *)
Definition ends_with_separator (u : string) : Prop := ∃ p, u = p +:+ "/".
Definition mentions_root (u : string) : Prop := ∃ p q, u = p +:+ "__root__" +:+ q.

(** [name] ends with [suf]. *)
Definition has_suffix (name suf : string) : Prop := ∃ p, name = p +:+ suf.

(** The client once the decorator has handed a job to the scheduler. *)
Definition logged (f : Method) (kw : kwargs) (self : Client.Client) : Client.Client :=
  set_scheduler (enqueue f (default SLOW (kw_priority kw)) (scheduler self)) self.

(** The call misses the cache: it asks to bypass it, or nothing is
    stored for it. *)
Definition misses (f : Method) (kw : kwargs) (self : Client.Client) : Prop :=
  default false (kw_no_cache kw) = true ∨ _check_cache_ f kw self = VNone.

Definition cacheable (f : Method) : Prop := f = get_state_m ∨ f = users_m.

(** What [commit_state] does to the repository before it compares the
    index with HEAD: check out the user branch, dump, stage. *)
Definition stage `{Host} (state : State) : M Client.Client unit :=
  _checkout_to_master_user;;
  dump state;;
  on_repo (index_add_glob (PyStr.path_join (user state) "*")).

(** The history a commit would extend: the references, the commits,
    and the time of the last commit. *)
Definition history (self : Client.Client)
    : option (list Reference) * option (list Commit) * option Z :=
  (refs <$> repo self, objects <$> repo self, _last_commit_ts self).

(** A computation that leaves the history and the owner alone. *)
Definition keeps {A} (m : M Client.Client A) : Prop :=
  ∀ c res c', m c = (res, c') →
    history c' = history c ∧ master_user c' = master_user c.

Definition keeps_repo {A} (m : M Repo A) : Prop :=
  ∀ r res r', m r = (res, r') → refs r' = refs r ∧ objects r' = objects r.

(** Best-reference selection. A reference takes part if its name
    contains [binsync/]; its group is the last segment of its name. *)
Definition takes_part (ref : Reference) : bool :=
  PyStr.contains "binsync/" (name ref).

Definition group (k : string) (l : list Reference) : list Reference :=
  List.filter (λ ref, takes_part ref && String.eqb (PyStr.last_segment (name ref)) k) l.

(** A reference of the configured remote. *)
Definition of_configured_remote (self : Client.Client) (ref : Reference) : bool :=
  match kind ref with
  | RemoteReference n => bool_decide (n = remote self)
  | _ => false
  end.

(** The reference the loop keeps for a group [g], listed in the order
    of [repo.refs]: the last one of the configured remote if there is
    one, else the first of the group. *)
Definition chosen (self : Client.Client) (g : list Reference) : option Reference :=
  match last (List.filter (of_configured_remote self) g) with
  | Some ref => Some ref
  | None => hd_error g
  end.

(** One turn of the loop, seen from one group. *)
Definition keep (self : Client.Client) (acc : option Reference) (ref : Reference)
    : option Reference :=
  match acc with
  | None => Some ref
  | Some old => if of_configured_remote self ref then Some ref else Some old
  end.

(** The claim that a local reference wins over a remote one, as a
    property of a selection [best] made among [l]. *)
Definition prefers_local (l : list Reference) (best : PyDict.t Reference) : Prop :=
  ∀ k ref loc,
    PyDict.lookup k best = Some ref →
    loc ∈ group k l → is_remote loc = false →
    is_remote ref = false.


(** The text of the [binary_hash] file of the root branch: the blob of
    the first reference whose name ends with [binsync/__root__]. *)
Definition stored_blob (r : Repo) : option string :=
  match List.filter (λ ref, PyStr.endswith (name ref) BINSYNC_ROOT_BRANCH) (refs r) with
  | [] => None
  | branch :: _ => tree (commit branch) !! "binary_hash"
  end.


(** A computation that never raises the bad-username error. *)
Definition other_error (e : exn) : Prop := ∀ u, e ≠ BadUsername u.

Definition quiet {S A} (m : M S A) : Prop :=
  ∀ s e s', m s = (inl e, s') → other_error e.

(** A library call that touches the files only, the index and the
    working tree: the references, the commits, HEAD and the hooks are
    as before. *)
Definition files_only {A} (m : M Repo A) : Prop :=
  ∀ r res r', m r = (res, r') →
    refs r' = refs r ∧ objects r' = objects r ∧ head r' = head r
    ∧ hooks_pass r' = hooks_pass r.

(** The same for a method: of the client it changes the repository
    only, and of the repository the files only. *)
Definition repo_files_only {A} (m : M Client.Client A) : Prop :=
  ∀ c res c' r, m c = (res, c') → repo c = Some r →
    ∃ r', c' = set_repo (Some r') c
      ∧ refs r' = refs r ∧ objects r' = objects r ∧ head r' = head r
      ∧ hooks_pass r' = hooks_pass r.



(** The lock file of a repository. *)
Definition lock_path (root : string) : string := root +:+ "/.git/binsync.lock".




(** The client with the warning of a hash mismatch recorded when the
    stored hash [stored] is not the one it was given. *)
Definition warned (stored : string) (self : Client.Client) : Client.Client :=
  if bool_decide (stored ≠ binary_hash self)
  then set_connection_warnings
         (connection_warnings self ++ [ConnectionWarnings.HASH_MISMATCH]) self
  else self.

(** The object [__init__] has filled in when it starts to attach. *)
Definition newborn (u root h rem : string) (ci : Z) (pid : option Z)
    (sock : option string) : Client.Client :=
  mkClient u root h rem None None pid sock [] Cache_init Scheduler_init
    ci None None None None None true.

(** How the attach ends on a client whose repository [r] has the root
    branch: with the error of a missing hash file, of a bare
    repository or of a held lock, or with the lock taken. *)
Definition attach_outcome (self : Client.Client) (w : World) (r : Repo)
    : (exn + option Repo) * (Client.Client * World) :=
  match stored_blob r with
  | None => (inl (KeyError "binary_hash"), (self, w))
  | Some blob =>
      let self1 := warned (PyStr.strip_nl blob) self in
      if bare r then (inl AssertionError, (self1, w))
      else if bool_decide (lock_path (repo_root self) ∈ locks w)
      then (inl (LockContention (lock_path (repo_root self))),
            (set_repo_lock (Some (lock_path (repo_root self))) self1, w))
      else (inr (Some r),
            (set_repo_lock (Some (lock_path (repo_root self))) self1,
             mkWorld (disk w) (hosted w) ({[lock_path (repo_root self)]} ∪ locks w)))
  end.


(** The files of a tree in the order the walk of [list_files_in_tree]
    reaches them: the blobs of the tree, then the files of its
    subtrees, the last subtree first. *)
Fixpoint files_of (t : TreeObject) : list string :=
  match t with
  | mkTreeObject bs ts =>
      bs ++ (fix go (l : list TreeObject) : list string :=
               match l with
               | [] => []
               | t' :: l' => go l' ++ files_of t'
               end) ts
  end.

(** The files of the trees of a stack, the last tree first. *)
Definition files_of_stack (l : list TreeObject) : list string :=
  fold_right (λ t acc, acc ++ files_of t) [] l.

(** The files of a tree in reading order: its blobs, then the files of
    its subtrees from the first to the last. *)
Fixpoint all_files (t : TreeObject) : list string :=
  match t with
  | mkTreeObject bs ts =>
      bs ++ (fix go (l : list TreeObject) : list string :=
               match l with
               | [] => []
               | t' :: l' => all_files t' ++ go l'
               end) ts
  end.

(** The number of trees in a tree, itself included: the number of
    turns the walk takes. *)
Fixpoint tree_count (t : TreeObject) : nat :=
  match t with
  | mkTreeObject _ ts =>
      S ((fix go (l : list TreeObject) : nat :=
            match l with
            | [] => 0
            | t' :: l' => tree_count t' + go l'
            end) ts)
  end.

Definition stack_count (l : list TreeObject) : nat :=
  fold_right (λ t acc, tree_count t + acc) 0 l.

End Spec.

(* ===================================================================== *)
(** * A small repository to run the client on                             *)
(* ===================================================================== *)

Module Scenario.
Import Git Binsync Client.

(** A host whose metadata is the username, kept in [metadata.toml] at
    the root of the tree of a user branch. *)
Definition host : Host := {|
  Metadata := string;
  State_parse := λ t _,
    match t !! "metadata.toml" with
    | Some u => inr (mkState u false [])
    | None => inl MetadataNotFoundError
    end;
  State_dump := λ s, [AddData "metadata.toml" (user s)];
  load_toml_from_file := λ t f,
    match t !! f with
    | Some m => inr m
    | None => inl (KeyError f)
    end;
  User_from_metadata := λ m, inr (mkUser m);
|}.

Definition root_tree (hash : string) : Tree :=
  {[ ".gitignore" := ".git/*" +:+ String PyStr.nl EmptyString; "binary_hash" := hash ]}.

Definition root_commit (hash : string) : Commit :=
  mkCommit (root_tree hash) 100 "Root commit" [] 0.

Definition alice_tree : Tree := <["metadata.toml" := "alice"]> (root_tree "aa").

Definition alice_commit : Commit := mkCommit alice_tree 200 "m1" [0] 1.

Definition local_alice : Reference := mkRef "binsync/alice" Head alice_commit.
Definition origin_alice : Reference :=
  mkRef "origin/binsync/alice" (RemoteReference "origin") (root_commit "aa").

(** Alice has committed once; Bob's branch is still at the root; the
    remote origin lags behind Alice's local branch. *)
Definition repository (hash : string) : Repo :=
  mkRepo
    [ mkRef "binsync/__root__" Head (root_commit hash);
      local_alice;
      mkRef "binsync/bob" Head (root_commit hash);
      origin_alice ]
    [root_commit hash; alice_commit]
    "binsync/alice" alice_tree alice_tree false ["origin"] true.

Definition alice : Client.Client :=
  mkClient "alice" "/tmp/r1" "aa" "origin" (Some (repository "aa"))
    (Some "/tmp/r1/.git/binsync.lock") None None [] Cache_init
    (mkScheduler true []) 10 None None None None None true.

(** Bob's client on the same repository: he has committed nothing. *)
Definition bob : Client.Client :=
  mkClient "bob" "/tmp/r1" "aa" "origin" (Some (repository "aa"))
    (Some "/tmp/r1/.git/binsync.lock") None None [] Cache_init
    (mkScheduler true []) 10 None None None None None true.

(** Alice's client with a state of Alice in its cache. *)
Definition cached_state : State := mkState "alice" false [("note", "seen")].

Definition alice_cached : Client.Client :=
  set_cache (Cache_set_state (VState cached_state)
               (mkKwargs (Some "alice") None None None) Cache_init) alice.

Definition no_kwargs : kwargs := mkKwargs None None None None.

(** The disk before any client attaches: the repository at [/tmp/r1],
    with the given text in its [binary_hash] file. *)
Definition world (hash : string) : World :=
  mkWorld {[ "/tmp/r1" := repository hash ]} ∅ ∅.

(** A place from which the repository can be cloned. *)
Definition hosting_world : World :=
  mkWorld ∅ {[ "https://github.com/user/repo.git" := repository "aa" ]} ∅.

(** Alice once more, with the two hints of an authentication agent. *)
Definition alice_with_agent : Client.Client :=
  mkClient "alice" "/tmp/r1" "aa" "origin" (Some (repository "aa"))
    (Some "/tmp/r1/.git/binsync.lock") (Some 4242%Z) (Some "/tmp/ssh-XX/agent.4241")
    [] Cache_init (mkScheduler true []) 10 None None None None None true.

(** The state Alice has already committed, and a state of Bob. *)
Definition committed_state : State := mkState "alice" false [].
Definition foreign_state : State := mkState "bob" true [].

(** Bob's repository once his first state is dumped and staged on his
    branch: his metadata is in the index, not yet committed. [hooks]
    tells whether the commit hook lets commits through. *)
Definition bob_tree : Tree := <["metadata.toml" := "bob"]> (root_tree "aa").

Definition bob_staged (hooks : bool) : Repo :=
  mkRepo (refs (repository "aa")) (objects (repository "aa")) "binsync/bob"
    bob_tree bob_tree false ["origin"] hooks.

(** Bob's client on a repository whose commit hook refuses every
    commit. *)
Definition strict_repository : Repo :=
  mkRepo (refs (repository "aa")) (objects (repository "aa")) "binsync/alice"
    alice_tree alice_tree false ["origin"] false.

Definition bob_strict : Client.Client := set_repo (Some strict_repository) bob.

(** A tree with a file at its root and two directories, one of them
    with a directory of its own. *)
Definition sample_tree : TreeObject :=
  mkTreeObject ["metadata.toml"]
    [ mkTreeObject ["functions/401000.toml"; "functions/401100.toml"]
        [ mkTreeObject ["functions/old/400000.toml"] [] ];
      mkTreeObject ["comments/1.toml"] [] ].

(** What [ssh-agent -s] prints, and what a script that looks for a
    running agent prints. *)
Definition agent_output : string :=
  "SSH_AUTH_SOCK=/tmp/ssh-XX/agent.4241; export SSH_AUTH_SOCK;"
  +:+ String PyStr.nl
        ("SSH_AGENT_PID=4242; export SSH_AGENT_PID;"
         +:+ String PyStr.nl ("echo Agent pid 4242;" +:+ String PyStr.nl EmptyString)).

Definition found_output : string :=
  "Found ssh-agent at 4242"
  +:+ String PyStr.nl
        ("Found ssh-agent socket at /tmp/ssh-XX/agent.4241" +:+ String PyStr.nl EmptyString).


(** A repository that is not a BinSync one, and a place that hosts
    it. *)
Definition plain_repository : Repo :=
  mkRepo [mkRef "master" Head (root_commit "aa")] [root_commit "aa"] "master"
    (root_tree "aa") (root_tree "aa") false [] true.

Definition plain_world : World :=
  mkWorld ∅ {[ "https://example.org/plain.git" := plain_repository ]} ∅.

End Scenario.

Import Git Binsync Client.

(* ===================================================================== *)
(** * The string primitives on examples                                   *)
(* ===================================================================== *)

Example endswith_ex : PyStr.endswith "bob/" "/" = true /\ PyStr.endswith "bob" "/" = false.
Proof. split; reflexivity. Qed.

Example contains_ex :
  PyStr.contains "__root__" "a__root__b" = true /\ PyStr.contains "__root__" "_root_" = false.
Proof. split; reflexivity. Qed.

Example split_ex :
  PyStr.split PyStr.slash "origin/binsync/alice" = ["origin"; "binsync"; "alice"]
  /\ PyStr.split PyStr.slash "a/" = ["a"; EmptyString]
  /\ PyStr.split PyStr.slash EmptyString = [EmptyString].
Proof. repeat split; reflexivity. Qed.

Example strip_ex :
  PyStr.strip_nl (String PyStr.nl ("aa" +:+ String PyStr.nl (String PyStr.nl EmptyString))) = "aa".
Proof. reflexivity. Qed.

Example findall_ex :
  PyStr.findall_slash_git_0 "git@github.com:team/repo.git" = Some "repo"
  /\ PyStr.findall_slash_git_0 "repo.git" = None
  /\ PyStr.findall_after_0 "origin/" "origin/binsync/alice" = Some "binsync/alice".
Proof. repeat split; reflexivity. Qed.

(* ===================================================================== *)
(** * What the string primitives compute                                  *)
(* ===================================================================== *)

Section StringFacts.

Lemma app_String a s t : String a s +:+ t = String a (s +:+ t).
Proof. reflexivity. Qed.

Lemma app_Empty t : EmptyString +:+ t = t.
Proof. reflexivity. Qed.

Lemma prefix_spec p s : String.prefix p s = true ↔ ∃ q, s = p +:+ q.
Proof.
  revert s. induction p as [|a p IH]; intros s.
  - split; [intros _; by exists s | by destruct s].
  - destruct s as [|b s]; simpl.
    + split; [done | intros [q Hq]; done].
    + destruct (Ascii.ascii_dec a b) as [->|Hne].
      * rewrite IH. split; intros [q Hq]; exists q;
          rewrite app_String in *; congruence.
      * split; [done | intros [q Hq]; rewrite app_String in Hq; congruence].
Qed.

Lemma endswith_unfold s suf :
  PyStr.endswith s suf =
    if String.eqb s suf then true
    else match s with
         | EmptyString => false
         | String _ s' => PyStr.endswith s' suf
         end.
Proof. by destruct s. Qed.

Lemma endswith_spec s suf : PyStr.endswith s suf = true ↔ ∃ p, s = p +:+ suf.
Proof.
  induction s as [|a s IH]; rewrite endswith_unfold;
    match goal with |- context [String.eqb ?x suf] =>
      destruct (String.eqb_spec x suf) as [<-|Hne] end.
  - split; [intros _; exists EmptyString; reflexivity | done].
  - split; [done|]. intros [p Hp].
    destruct p; [rewrite app_Empty in Hp; congruence | done].
  - split; [intros _; exists EmptyString; reflexivity | done].
  - rewrite IH. split.
    + intros [p ->]. exists (String a p). reflexivity.
    + intros [p Hp]. destruct p as [|b p].
      * rewrite app_Empty in Hp. congruence.
      * rewrite app_String in Hp. exists p. congruence.
Qed.

Lemma contains_unfold sub s :
  PyStr.contains sub s =
    if String.prefix sub s then true
    else match s with
         | EmptyString => false
         | String _ s' => PyStr.contains sub s'
         end.
Proof. by destruct s. Qed.

Lemma contains_spec sub s :
  PyStr.contains sub s = true ↔ ∃ p q, s = p +:+ sub +:+ q.
Proof.
  induction s as [|a s IH]; rewrite contains_unfold;
    match goal with |- context [String.prefix sub ?x] =>
      destruct (String.prefix sub x) eqn:Hp end.
  - apply prefix_spec in Hp as [q Hq]. split; [|done].
    intros _. exists EmptyString, q. exact Hq.
  - split; [done|]. intros (p & q & Hpq).
    destruct p; [rewrite app_Empty in Hpq | done].
    assert (String.prefix sub EmptyString = true) by (apply prefix_spec; eauto).
    congruence.
  - apply prefix_spec in Hp as [q Hq]. split; [|done].
    intros _. exists EmptyString, q. exact Hq.
  - rewrite IH. split.
    + intros (p & q & ->). exists (String a p), q. reflexivity.
    + intros (p & q & Hpq). destruct p as [|b p].
      * rewrite app_Empty in Hpq.
        assert (String.prefix sub (String a s) = true) by (apply prefix_spec; eauto).
        congruence.
      * rewrite app_String in Hpq. exists p, q. congruence.
Qed.

End StringFacts.

(* ===================================================================== *)
(** * Running a method step by step                                       *)
(* ===================================================================== *)

Ltac munfold :=
  unfold mbind, mret, fmap, M_bind, M_ret, M_fmap, raise, get, gets, modify,
    try_except, zoom, self_, beside_ in *.

Section MonadFacts.

(** A successful sequence went through a successful first step. *)
Lemma bind_inr {S A B} (m : M S A) (k : A → M S B) s b s' :
  (m ≫= k) s = (inr b, s') → ∃ a s1, m s = (inr a, s1) ∧ k a s1 = (inr b, s').
Proof.
  munfold. destruct (m s) as [[e|a] s1]; [done|]. intros Hk. eauto.
Qed.

Lemma bind_eq_inr {S A B} (m : M S A) (k : A → M S B) s a s1 :
  m s = (inr a, s1) → (m ≫= k) s = k a s1.
Proof. munfold. by intros ->. Qed.

Lemma bind_eq_inl {S A B} (m : M S A) (k : A → M S B) s e s1 :
  m s = (inl e, s1) → (m ≫= k) s = (inl e, s1).
Proof. munfold. by intros ->. Qed.

Lemma self_eq {X A} (m : M Client.Client A) c (x : X) res c' :
  m c = (res, c') → self_ m (c, x) = (res, (c', x)).
Proof. unfold self_, zoom. simpl. by intros ->. Qed.

Lemma on_repo_eq {A} (m : M Repo A) c r res r' :
  repo c = Some r → m r = (res, r') → on_repo m c = (res, set_repo (Some r') c).
Proof. unfold on_repo. by intros -> ->. Qed.

Lemma beside_eq {X A} (m : M X A) (c : Client.Client) (x : X) res x' :
  m x = (res, x') → beside_ m (c, x) = (res, (c, x')).
Proof. unfold beside_, zoom. simpl. by intros ->. Qed.

Lemma set_repo_same c r : repo c = Some r → set_repo (Some r) c = c.
Proof. destruct c. simpl. by intros ->. Qed.


Lemma filter_none {A} (p : A → bool) (l : list A) :
  (∀ x, x ∈ l → p x = false) → List.filter p l = [].
Proof.
  induction l as [|a l IH]; intros Hall; simpl; [done|].
  rewrite (Hall a) by left. apply IH. intros x Hx. apply Hall. by right.
Qed.


End MonadFacts.

(* ===================================================================== *)
(** * Construction: the username check                                    *)
(* ===================================================================== *)

Section Construction.

Lemma username_guard u :
  PyStr.endswith u "/" || PyStr.contains "__root__" u = true
  ↔ Spec.ends_with_separator u ∨ Spec.mentions_root u.
Proof.
  rewrite orb_true_iff, endswith_spec, contains_spec. reflexivity.
Qed.

Lemma init_bad_username u root h rem ci init url pid sock now w :
  Spec.ends_with_separator u ∨ Spec.mentions_root u →
  __init__ u root h rem ci init url pid sock now w = (inl (BadUsername u), w).
Proof.
  intros Hbad%username_guard. unfold __init__. munfold.
  rewrite Hbad. reflexivity.
Qed.

End Construction.

(* ===================================================================== *)
(** * The environment of remote operations                                *)
(* ===================================================================== *)

(** [str(pid)] is the decimal text of the integer. *)
Example pretty_ex : pretty 4242%Z = "4242" ∧ pretty (-7)%Z = "-7".
Proof. split; reflexivity. Qed.

Section Transport.

(** C9: when both hints are supplied, [ssh_agent_env] returns exactly
    the map with the two well-known names, SSH_AGENT_PID bound to the
    decimal text of the pid and SSH_AUTH_SOCK to the socket path, and
    no other key; when either hint is missing it returns the empty
    map. *)
Theorem ssh_agent_env_spec (self : Client.Client) :
  (∀ pid sock,
     ssh_agent_pid self = Some pid → ssh_auth_sock self = Some sock →
     ssh_agent_env self
       = {[ "SSH_AGENT_PID" := pretty pid; "SSH_AUTH_SOCK" := sock ]}
     ∧ dom (ssh_agent_env self) = {[ "SSH_AGENT_PID"; "SSH_AUTH_SOCK" ]})
  ∧ (ssh_agent_pid self = None ∨ ssh_auth_sock self = None →
     ssh_agent_env self = ∅).
Proof.
  unfold ssh_agent_env. split.
  - intros pid sock -> ->. split; [reflexivity|].
    rewrite dom_insert_L, dom_singleton_L. reflexivity.
  - intros [-> | ->]; [reflexivity|]. by destruct (ssh_agent_pid self).
Qed.
End Transport.

(* ===================================================================== *)
(** * The decorator                                                       *)
(* ===================================================================== *)

Section Decorator.
Context {H : Host} {X : Type}.
Implicit Types (self : Client.Client) (x : X) (kw : kwargs) (op : Method).

Lemma atomic_hit op (f : kwargs → M (Client.Client * X) value) kw self x :
  default false (kw_no_cache kw) = false →
  _check_cache_ op kw self ≠ VNone →
  atomic_git_action op f kw (self, x) = (inr (_check_cache_ op kw self), (self, x)).
Proof.
  intros Hnc Hitem. unfold atomic_git_action. rewrite Hnc. munfold. simpl.
  rewrite bool_decide_eq_true_2 by done. reflexivity.
Qed.

Lemma atomic_miss op (f : kwargs → M (Client.Client * X) value) kw self x :
  Spec.misses op kw self →
  atomic_git_action op f kw (self, x) =
    match f kw (Spec.logged op kw self, x) with
    | (inl e, s') => (inl e, s')
    | (inr v, (self', x')) => (inr v, ((_set_cache op v kw self').2, x'))
    end.
Proof.
  intros Hmiss. unfold atomic_git_action, schedule_and_wait_job, Spec.logged.
  assert (Hq : ∀ s : Client.Client * X,
    (self_ (modify (λ self0, set_scheduler
       (enqueue op (default SLOW (kw_priority kw)) (scheduler self0)) self0));; f kw) s
    = f kw (set_scheduler (enqueue op (default SLOW (kw_priority kw))
              (scheduler s.1)) s.1, s.2)).
  { intros [c y]. munfold. reflexivity. }
  destruct Hmiss as [Hnc | Hitem].
  - rewrite Hnc. simpl. munfold. simpl.
    destruct (f kw _) as [[e|v] [self' x']]; reflexivity.
  - destruct (default false (kw_no_cache kw)); simpl; munfold; simpl.
    + destruct (f kw _) as [[e|v] [self' x']]; reflexivity.
    + rewrite Hitem. rewrite bool_decide_eq_false_2 by (intros Hc; by apply Hc).
      destruct (f kw _) as [[e|v] [self' x']]; reflexivity.
Qed.

Lemma set_cache_read_back op v kw self :
  Spec.cacheable op →
  _check_cache_ op kw (_set_cache op v kw self).2 = v.
Proof.
  intros [-> | ->]; unfold _set_cache, _check_cache_; munfold; simpl.
  - unfold Cache_get_state, Cache_set_state; simpl.
    destruct (kw_user kw); simpl; by rewrite lookup_insert_eq.
  - reflexivity.
Qed.

Lemma logged_submitted op kw self :
  submitted (scheduler (Spec.logged op kw self))
  = submitted (scheduler self) ++ [(op, default SLOW (kw_priority kw))].
Proof. reflexivity. Qed.

End Decorator.

(* ===================================================================== *)
(** * Reading a state                                                     *)
(* ===================================================================== *)

Section GetState.
Context {H : Host}.
Implicit Types (self : Client.Client) (r : Repo) (kw : kwargs).

Lemma get_tree_no_ref self u r :
  (∀ ref, ref ∈ refs r → ¬ Spec.has_suffix (name ref) ("binsync/" +:+ u)) →
  ∃ msg, _get_tree self u r = inl (ValueError msg).
Proof.
  intros Hno. unfold _get_tree. rewrite filter_none; [eauto|].
  intros ref Href. apply not_true_is_false. intros He.
  apply (Hno ref Href). by apply endswith_spec.
Qed.

Lemma get_tree_some_ref self u r t :
  _get_tree self u r = inr t →
  ∃ ref, ref ∈ refs r ∧ Spec.has_suffix (name ref) ("binsync/" +:+ u).
Proof.
  unfold _get_tree.
  destruct (List.filter _ (refs r)) as [|o os] eqn:Hf; [done|]. intros _.
  assert (Ho : In o (List.filter
    (λ ref, PyStr.endswith (name ref) (BINSYNC_BRANCH_PREFIX +:+ "/" +:+ u)) (refs r)))
    by (rewrite Hf; by left).
  apply filter_In in Ho as [Hin He]. exists o. split.
  - by apply list_elem_of_In.
  - by apply endswith_spec.
Qed.

(** The body reads the client and never writes it. *)
Lemma get_state_f_frame u version self :
  get_state_f u version self = ((get_state_f u version self).1, self).
Proof.
  unfold get_state_f. munfold. destruct (repo self) as [r|]; [|done].
  destruct (_get_tree _ _ r) as [e|t]; simpl.
  - destruct (bool_decide (e = MetadataNotFoundError)); [|done].
    by destruct (bool_decide _).
  - destruct (State_parse t version) as [e|s]; simpl; [|done].
    destruct (bool_decide (e = MetadataNotFoundError)); [|done].
    by destruct (bool_decide _).
Qed.

(** The body does not look at the scheduler. *)
Lemma get_state_f_logged u version self op kw :
  (get_state_f u version (Spec.logged op kw self)).1 = (get_state_f u version self).1.
Proof.
  unfold get_state_f, Spec.logged. munfold. simpl.
  destruct (repo self) as [r|]; [|done].
  unfold _get_tree. simpl.
  destruct (List.filter _ (refs r)) as [|o os]; simpl.
  - done.
  - destruct (State_parse _ version) as [e|s]; simpl; [|done].
    destruct (bool_decide (e = MetadataNotFoundError)); [|done].
    by destruct (bool_decide _).
Qed.

(** On a miss the decorated [get_state] logs the job, answers what its
    body answers, and stores the answer only if there is one. *)
Lemma get_state_miss kw self :
  Spec.misses get_state_m kw self →
  get_state kw (self, tt) =
    match (get_state_f (kw_user kw) (kw_version kw) self).1 with
    | inl e => (inl e, (Spec.logged get_state_m kw self, tt))
    | inr v =>
        (inr v, ((_set_cache get_state_m v kw (Spec.logged get_state_m kw self)).2, tt))
    end.
Proof.
  intros Hmiss. unfold get_state. rewrite atomic_miss by done.
  unfold self_, zoom. simpl.
  rewrite (get_state_f_frame _ _ (Spec.logged _ _ _)), get_state_f_logged. simpl.
  by destruct (get_state_f _ _ self).1.
Qed.

Lemma get_state_f_no_metadata self r u version t :
  repo self = Some r →
  _get_tree self u r = inr t →
  State_parse t version = inl MetadataNotFoundError →
  get_state_f (Some u) version self =
    (inr (if bool_decide (u = master_user self)
          then VState (State_init (master_user self)) else VNone), self).
Proof.
  intros Hr Ht Hp. unfold get_state_f. munfold. rewrite Hr, Ht, Hp. simpl.
  by destruct (bool_decide (u = master_user self)).
Qed.

Lemma get_state_f_parse_error self r u version t e :
  repo self = Some r →
  _get_tree self u r = inr t →
  State_parse t version = inl e →
  e ≠ MetadataNotFoundError →
  get_state_f (Some u) version self = (inl e, self).
Proof.
  intros Hr Ht Hp He. unfold get_state_f. munfold. rewrite Hr, Ht, Hp. simpl.
  by rewrite bool_decide_eq_false_2.
Qed.

Lemma no_suffix_check (l : list Reference) suf :
  forallb (λ ref, negb (PyStr.endswith (name ref) suf)) l = true →
  ∀ ref, ref ∈ l → ¬ Spec.has_suffix (name ref) suf.
Proof.
  rewrite forallb_forall. intros Hall ref Href%list_elem_of_In Hs.
  apply Hall in Href. apply endswith_spec in Hs. by rewrite Hs in Href.
Qed.

(** C10: if no reference name ends with [binsync/<u>], then
    [get_state(user=u)] raises the ValueError of the tree lookup: its
    body does, leaving the client as it was, and so does the decorated
    method whenever the call reaches the body (the cache is bypassed or
    holds nothing for the call); nothing is stored in the cache. Only
    MetadataNotFoundError is caught: any other failure of the parse
    goes to the caller too. *)
Theorem get_state_unknown_user self r u version :
  repo self = Some r →
  (∀ ref, ref ∈ refs r → ¬ Spec.has_suffix (name ref) ("binsync/" +:+ u)) →
  ∃ msg,
    get_state_f (Some u) version self = (inl (ValueError msg), self)
    ∧ (∀ kw, kw_user kw = Some u → kw_version kw = version →
         Spec.misses get_state_m kw self →
         get_state kw (self, tt)
           = (inl (ValueError msg), (Spec.logged get_state_m kw self, tt)))
    ∧ (∀ u' t e, _get_tree self u' r = inr t → State_parse t version = inl e →
         e ≠ MetadataNotFoundError →
         get_state_f (Some u') version self = (inl e, self)).
Proof.
  intros Hr Hno. destruct (get_tree_no_ref self u r Hno) as [msg Hmsg].
  assert (Hbody : get_state_f (Some u) version self = (inl (ValueError msg), self)).
  { unfold get_state_f. munfold. rewrite Hr, Hmsg. reflexivity. }
  exists msg. split; [done|]. split.
  - intros kw Hu Hv Hmiss. rewrite get_state_miss by done.
    rewrite Hu, Hv, Hbody. reflexivity.
  - intros u' t e. by apply get_state_f_parse_error.
Qed.

(** C2, as amended: when the branch of [u] exists and the parse fails
    with MetadataNotFoundError, [get_state(user=u)] for a user other
    than the master user swallows the failure and returns None; for the
    master user, named or defaulted, it returns a new empty State owned
    by the master user. The body leaves the client as it was, and the
    decorated method answers the same whenever the call reaches the
    body. *)
Theorem get_state_metadata_not_found self r version :
  repo self = Some r →
  (∀ u t, _get_tree self u r = inr t →
          State_parse t version = inl MetadataNotFoundError →
          u ≠ master_user self →
          get_state_f (Some u) version self = (inr VNone, self)
          ∧ ∀ kw, kw_user kw = Some u → kw_version kw = version →
                  Spec.misses get_state_m kw self →
                  (get_state kw (self, tt)).1 = inr VNone)
  ∧ (∀ t, _get_tree self (master_user self) r = inr t →
          State_parse t version = inl MetadataNotFoundError →
          get_state_f (Some (master_user self)) version self
            = (inr (VState (State_init (master_user self))), self)
          ∧ get_state_f None version self
            = (inr (VState (State_init (master_user self))), self)
          ∧ ∀ kw, kw_user kw = None ∨ kw_user kw = Some (master_user self) →
                  kw_version kw = version →
                  Spec.misses get_state_m kw self →
                  (get_state kw (self, tt)).1
                    = inr (VState (State_init (master_user self))))
  ∧ user (State_init (master_user self)) = master_user self.
Proof.
  intros Hr. split; [|split; [|done]].
  - intros u t Ht Hp Hne.
    assert (Hbody : get_state_f (Some u) version self = (inr VNone, self)).
    { rewrite (get_state_f_no_metadata self r u version t) by done.
      by rewrite bool_decide_eq_false_2. }
    split; [exact Hbody|]. intros kw Hu Hv Hmiss.
    rewrite get_state_miss by done. by rewrite Hu, Hv, Hbody.
  - intros t Ht Hp.
    assert (Hnamed : get_state_f (Some (master_user self)) version self
              = (inr (VState (State_init (master_user self))), self)).
    { rewrite (get_state_f_no_metadata self r _ version t) by done.
      by rewrite bool_decide_eq_true_2. }
    assert (Hdefault : get_state_f None version self
              = (inr (VState (State_init (master_user self))), self)).
    { unfold get_state_f. munfold. rewrite Hr, Ht, Hp. simpl.
      by rewrite bool_decide_eq_true_2. }
    split; [exact Hnamed|]. split; [exact Hdefault|].
    intros kw Hu Hv Hmiss. rewrite get_state_miss by done.
    destruct Hu as [Hu | Hu]; rewrite Hu, Hv.
    + by rewrite Hdefault.
    + by rewrite Hnamed.
Qed.

End GetState.

(* ===================================================================== *)
(** * Committing a state                                                  *)
(* ===================================================================== *)

Section CommitState.
Context {H : Host}.
Implicit Types (self : Client.Client) (state : State) (kw : kwargs).

Import Spec.

Lemma keeps_ret {A} (a : A) : keeps (mret a).
Proof. intros c res c' [= <- <-]. done. Qed.

Lemma keeps_bind {A B} (m : M Client.Client A) (k : A → M Client.Client B) :
  keeps m → (∀ a, keeps (k a)) → keeps (m ≫= k).
Proof.
  intros Hm Hk c res c'. munfold.
  destruct (m c) as [[e|a] c1] eqn:Hmc.
  - intros [= <- <-]. eapply Hm, Hmc.
  - intros Hkc. destruct (Hm _ _ _ Hmc) as [Hh Hu].
    destruct (Hk _ _ _ _ Hkc) as [Hh' Hu']. split; congruence.
Qed.

Lemma keeps_get : keeps get.
Proof. intros c res c' [= <- <-]. done. Qed.

Lemma keeps_on_repo {A} (m : M Repo A) : keeps_repo m → keeps (on_repo m).
Proof.
  intros Hm c res c'. unfold on_repo.
  destruct (repo c) as [r|] eqn:Hr; [|by intros [= <- <-]].
  destruct (m r) as [res' r'] eqn:Hmr. intros [= <- <-].
  destruct (Hm _ _ _ Hmr) as [Hrefs Hobjs].
  unfold history. simpl. rewrite Hr. simpl. by rewrite Hrefs, Hobjs.
Qed.

Lemma keeps_for_each {A} (l : list A) (body : A → M Client.Client unit) :
  (∀ a, keeps (body a)) → keeps (for_each l body).
Proof.
  intros Hb. induction l as [|a l IH]; simpl.
  - apply keeps_ret.
  - apply keeps_bind; [apply Hb | intros _; apply IH].
Qed.

Lemma keeps_repo_modify (f : Repo → Repo) :
  (∀ r, refs (f r) = refs r ∧ objects (f r) = objects r) → keeps_repo (modify f).
Proof. intros Hf r res r' [= <- <-]. apply Hf. Qed.

Lemma keeps_repo_bind {A B} (m : M Repo A) (k : A → M Repo B) :
  keeps_repo m → (∀ a, keeps_repo (k a)) → keeps_repo (m ≫= k).
Proof.
  intros Hm Hk r res r'. munfold.
  destruct (m r) as [[e|a] r1] eqn:Hmr.
  - intros [= <- <-]. eapply Hm, Hmr.
  - intros Hkr. destruct (Hm _ _ _ Hmr) as [Hh Hu].
    destruct (Hk _ _ _ _ Hkr) as [Hh' Hu']. split; congruence.
Qed.

Lemma keeps_repo_checkout n : keeps_repo (checkout n).
Proof.
  intros r res r'. unfold checkout.
  destruct (find_head n r); intros [= <- <-]; done.
Qed.

Lemma keeps_repo_index_add path : keeps_repo (index_add path).
Proof.
  apply keeps_repo_modify. intros r. by destruct (working_tree r !! path).
Qed.

Lemma keeps_repo_index_add_glob g : keeps_repo (index_add_glob g).
Proof. by apply keeps_repo_modify. Qed.

Lemma keeps_repo_index_remove path : keeps_repo (index_remove path).
Proof. by apply keeps_repo_modify. Qed.

Lemma keeps_checkout_to_master_user : keeps _checkout_to_master_user.
Proof.
  apply keeps_bind; [apply keeps_get|]. intros self.
  apply keeps_on_repo, keeps_repo_checkout.
Qed.

Lemma keeps_dump state : keeps (dump state).
Proof.
  apply keeps_for_each. intros [path data | path].
  - apply keeps_on_repo, keeps_repo_bind.
    + by apply keeps_repo_modify.
    + intros _. apply keeps_repo_index_add.
  - apply keeps_on_repo, keeps_repo_index_remove.
Qed.

Lemma keeps_stage state : keeps (stage state).
Proof.
  apply keeps_bind; [apply keeps_checkout_to_master_user|]. intros _.
  apply keeps_bind; [apply keeps_dump|]. intros _.
  apply keeps_on_repo, keeps_repo_index_add_glob.
Qed.

Lemma checkout_to_master_user_inv self sa :
  _checkout_to_master_user self = (inr tt, sa) →
  ∃ r ra b, repo self = Some r ∧ repo sa = Some ra
    ∧ List.find (λ o, String.eqb (name o) (user_branch_name self)) (branches ra) = Some b.
Proof.
  unfold _checkout_to_master_user, on_repo. munfold.
  destruct (repo self) as [r|] eqn:Hr; [|done].
  unfold checkout.
  destruct (find_head (user_branch_name self) r) as [b|] eqn:Hb; [|done].
  intros [= <-]. exists r. eexists. exists b. split; [done|]. split; [reflexivity|].
  exact Hb.
Qed.

Lemma commit_state_f_no_change self state msg now self1 r1 c :
  user state = master_user self →
  stage state self = (inr tt, self1) →
  repo self1 = Some r1 → head_commit r1 = Some c → index r1 = tree c →
  commit_state_f msg now (self, state) = (inr VNone, (self1, state)).
Proof.
  intros Hu Hst Hr1 Hc Hidx. unfold stage in Hst.
  apply bind_inr in Hst as ([] & sa & Hco & Hst).
  apply bind_inr in Hst as ([] & sb & Hdump & Hadd).
  destruct (checkout_to_master_user_inv _ _ Hco) as (r & ra & b & Hr & Hra & Hb).
  unfold commit_state_f.
  erewrite bind_eq_inr by reflexivity.
  erewrite bind_eq_inr by reflexivity. cbn [fst snd].
  rewrite bool_decide_eq_false_2 by (intros Hne; by apply Hne).
  erewrite bind_eq_inr by (apply self_eq, Hco).
  erewrite bind_eq_inr
    by (apply self_eq; erewrite on_repo_eq by (first [exact Hra | reflexivity]);
        rewrite (set_repo_same _ _ Hra); reflexivity).
  rewrite Hb.
  erewrite bind_eq_inr by (apply self_eq, Hdump).
  erewrite bind_eq_inr by (apply self_eq, Hadd).
  erewrite bind_eq_inr.
  2:{ apply self_eq. erewrite on_repo_eq; [|exact Hr1|].
      2:{ unfold index_diff_HEAD. rewrite Hc. reflexivity. }
      rewrite (set_repo_same _ _ Hr1). reflexivity. }
  rewrite bool_decide_eq_false_2 by (intros Hne; by apply Hne).
  reflexivity.
Qed.

Lemma commit_state_misses kw self : misses commit_state_m kw self.
Proof. by right. Qed.

(** C3: for a state whose user is not the master user, [commit_state]
    fails with ExternalUserCommitError: its body does before it touches
    anything, and the decorated method does after the scheduler has
    logged the job; the repository (references, HEAD, index, working
    tree, commits) and the State object are exactly as before. *)
Theorem commit_state_external_user self state msg now kw :
  user state ≠ master_user self →
  commit_state_f msg now (self, state)
    = (inl (ExternalUserCommitError (master_user self) (user state)), (self, state))
  ∧ commit_state msg now kw (self, state)
    = (inl (ExternalUserCommitError (master_user self) (user state)),
       (logged commit_state_m kw self, state))
  ∧ repo (logged commit_state_m kw self) = repo self
  ∧ history (logged commit_state_m kw self) = history self.
Proof.
  intros Hne.
  assert (Hbody : ∀ c, master_user c = master_user self →
    commit_state_f msg now (c, state)
    = (inl (ExternalUserCommitError (master_user self) (user state)), (c, state))).
  { intros c Hc. unfold commit_state_f.
    erewrite bind_eq_inr by reflexivity.
    erewrite bind_eq_inr by reflexivity. cbn [fst snd].
    rewrite Hc, bool_decide_eq_true_2 by (intros Heq; by apply Hne).
    reflexivity. }
  split; [by apply Hbody|]. split; [|done].
  unfold commit_state. rewrite atomic_miss by apply commit_state_misses.
  by rewrite Hbody.
Qed.

(** C4: for a state of the master user that, once dumped and staged on
    the user branch, leaves the index equal to the tree of HEAD,
    [commit_state] returns None without committing: no commit is added
    to the repository, every reference (the head of the user branch
    among them) points where it did, and the time of the last commit
    is what it was. *)
Theorem commit_state_no_change self state msg now kw self1 r0 r1 c :
  user state = master_user self →
  repo self = Some r0 →
  stage state (logged commit_state_m kw self) = (inr tt, self1) →
  repo self1 = Some r1 →
  head_commit r1 = Some c →
  index r1 = tree c →
  commit_state msg now kw (self, state) = (inr VNone, (self1, state))
  ∧ objects r1 = objects r0
  ∧ refs r1 = refs r0
  ∧ find_head (user_branch_name self) r1 = find_head (user_branch_name self) r0
  ∧ _last_commit_ts self1 = _last_commit_ts self.
Proof.
  intros Hu Hr0 Hst Hr1 Hc Hidx.
  destruct (keeps_stage state _ _ _ Hst) as [Hh _].
  unfold history in Hh. simpl in Hh. rewrite Hr0, Hr1 in Hh. simpl in Hh.
  injection Hh as Hrefs Hobjs Hts.
  split; [|split; [done|split; [done|split; [|done]]]].
  - unfold commit_state. rewrite atomic_miss by apply commit_state_misses.
    by rewrite (commit_state_f_no_change _ state msg now self1 r1 c).
  - unfold find_head, branches. by rewrite Hrefs.
Qed.

End CommitState.

(* ===================================================================== *)
(** * Best-reference selection                                            *)
(* ===================================================================== *)

Section BestRefs.
Import Spec.
Implicit Types (self : Client.Client) (d : PyDict.t Reference) (l g : list Reference).

Lemma dict_lookup_set {V} k k' (v : V) (d : PyDict.t V) :
  PyDict.lookup k' (PyDict.set k v d)
  = if String.eqb k k' then Some v else PyDict.lookup k' d.
Proof.
  induction d as [|[k0 v0] d IH]; simpl.
  - by destruct (String.eqb_spec k k').
  - destruct (String.eqb_spec k0 k) as [->|Hne]; simpl.
    + by destruct (String.eqb_spec k k').
    + rewrite IH. destruct (String.eqb_spec k0 k') as [->|Hne'];
        destruct (String.eqb_spec k k'); congruence.
Qed.

Lemma dict_mem_lookup {V} k (d : PyDict.t V) :
  PyDict.mem k d = bool_decide (is_Some (PyDict.lookup k d)).
Proof.
  unfold PyDict.mem. destruct (PyDict.lookup k d).
  - by rewrite bool_decide_eq_true_2.
  - rewrite bool_decide_eq_false_2; [done|]. by intros [? ?].
Qed.

Lemma group_cons k ref l :
  group k (ref :: l)
  = if takes_part ref && String.eqb (PyStr.last_segment (name ref)) k
    then ref :: group k l else group k l.
Proof. reflexivity. Qed.

Lemma configured_is_remote self ref :
  of_configured_remote self ref = true → is_remote ref = true.
Proof. unfold of_configured_remote, is_remote. by destruct (kind ref). Qed.

Local Arguments group : simpl never.

Lemma best_refs_loop_spec self l d :
  ∃ d', _get_best_refs_loop self l d = inr d'
    ∧ ∀ k, PyDict.lookup k d' = fold_left (keep self) (group k l) (PyDict.lookup k d).
Proof.
  revert d. induction l as [|ref l IH]; intros d; simpl.
  { exists d. done. }
  unfold BINSYNC_BRANCH_PREFIX. change ("binsync" +:+ "/") with "binsync/".
  fold (takes_part ref).
  destruct (takes_part ref) eqn:Htp; simpl.
  2:{ destruct (IH d) as (d' & Hd' & Hk). exists d'. split; [done|].
      intros k. rewrite group_cons, Htp. simpl. apply Hk. }
  set (bn := PyStr.last_segment (name ref)).
  assert (Hset : ∃ d', _get_best_refs_loop self l (PyDict.set bn ref d) = inr d'
    ∧ ∀ k, PyDict.lookup k d'
           = fold_left (keep self) (group k l)
               (if String.eqb bn k then Some ref else PyDict.lookup k d)).
  { destruct (IH (PyDict.set bn ref d)) as (d' & Hd' & Hk). exists d'.
    split; [done|]. intros k. rewrite Hk. by rewrite dict_lookup_set. }
  assert (Hskip : of_configured_remote self ref = false →
    is_Some (PyDict.lookup bn d) →
    ∃ d', _get_best_refs_loop self l d = inr d'
    ∧ ∀ k, PyDict.lookup k d'
           = fold_left (keep self) (group k (ref :: l)) (PyDict.lookup k d)).
  { intros Hconf [old Hold]. destruct (IH d) as (d' & Hd' & Hk). exists d'.
    split; [done|]. intros k. rewrite group_cons, Htp. simpl. fold bn.
    destruct (String.eqb_spec bn k) as [<-|Hne]; simpl; [|apply Hk].
    rewrite Hk, Hold. simpl. by rewrite Hconf. }
  rewrite dict_mem_lookup. case_bool_decide as Hmem.
  - unfold is_remote, remote_name.
    destruct (kind ref) as [|n|] eqn:Hkind; simpl.
    + apply Hskip; [|done]. unfold of_configured_remote. by rewrite Hkind.
    + case_bool_decide as Hn; simpl.
      * apply Hskip; [|done]. unfold of_configured_remote. rewrite Hkind.
        by rewrite bool_decide_eq_false_2.
      * destruct Hset as (d' & Hd' & Hk). exists d'. split; [done|].
        intros k. rewrite Hk, group_cons, Htp. simpl. fold bn.
        destruct (String.eqb_spec bn k) as [<-|Hne]; simpl; [|done].
        destruct Hmem as [old ->]. simpl.
        unfold of_configured_remote. rewrite Hkind.
        rewrite bool_decide_eq_true_2; [done|].
        destruct (decide (n = remote self)); [done|]. by destruct Hn.
    + apply Hskip; [|done]. unfold of_configured_remote. by rewrite Hkind.
  - destruct Hset as (d' & Hd' & Hk). exists d'. split; [done|].
    intros k. rewrite Hk, group_cons, Htp. simpl. fold bn.
    destruct (String.eqb_spec bn k) as [<-|Hne]; simpl; [|done].
    destruct (PyDict.lookup bn d) eqn:Hl; [|done].
    destruct Hmem. eauto.
Qed.

Lemma keep_fold_some self g a :
  fold_left (keep self) g (Some a)
  = match last (List.filter (of_configured_remote self) g) with
    | Some ref => Some ref
    | None => Some a
    end.
Proof.
  revert a. induction g as [|x g IH]; intros a; simpl; [done|].
  destruct (of_configured_remote self x) eqn:Hx; rewrite IH; [|done].
  rewrite last_cons. by destruct (last _).
Qed.

Lemma keep_fold_none self g : fold_left (keep self) g None = chosen self g.
Proof.
  unfold chosen. destruct g as [|x g]; simpl; [done|].
  rewrite keep_fold_some.
  destruct (of_configured_remote self x) eqn:Hx; [|done].
  rewrite last_cons. by destruct (last _).
Qed.

Lemma dict_set_keys {V} k (v : V) (d : PyDict.t V) :
  PyDict.keys (PyDict.set k v d)
  = if PyDict.mem k d then PyDict.keys d else PyDict.keys d ++ [k].
Proof.
  unfold PyDict.mem. induction d as [|[k0 v0] d IH]; [done|].
  cbn [PyDict.set PyDict.lookup].
  destruct (String.eqb_spec k0 k) as [->|Hne]; [done|].
  change (PyDict.keys ((k0, v0) :: PyDict.set k v d))
    with (k0 :: PyDict.keys (PyDict.set k v d)).
  rewrite IH. by destruct (PyDict.lookup k d).
Qed.

Lemma dict_mem_keys {V} k (d : PyDict.t V) :
  PyDict.mem k d = false → k ∉ PyDict.keys d.
Proof.
  unfold PyDict.mem. induction d as [|[k0 v0] d IH].
  - intros _. apply not_elem_of_nil.
  - cbn [PyDict.lookup]. destruct (String.eqb_spec k0 k) as [->|Hne]; [done|].
    intros Hm. change (PyDict.keys ((k0, v0) :: d)) with (k0 :: PyDict.keys d).
    rewrite not_elem_of_cons. split; [congruence | by apply IH].
Qed.

Lemma dict_set_nodup {V} k (v : V) (d : PyDict.t V) :
  NoDup (PyDict.keys d) → NoDup (PyDict.keys (PyDict.set k v d)).
Proof.
  intros Hd. rewrite dict_set_keys. destruct (PyDict.mem k d) eqn:Hm; [done|].
  apply NoDup_app. split; [done|]. split; [|apply NoDup_singleton].
  intros x Hx ->%list_elem_of_singleton. by apply (dict_mem_keys k d).
Qed.

Lemma best_refs_loop_nodup self l d d' :
  _get_best_refs_loop self l d = inr d' →
  NoDup (PyDict.keys d) → NoDup (PyDict.keys d').
Proof.
  revert d. induction l as [|ref l IH]; intros d; simpl.
  { by intros [= ->]. }
  repeat case_match; try done; intros Hloop Hd;
    first [ by apply (IH d) | by apply (IH _ Hloop), dict_set_nodup ].
Qed.

Lemma users_f_best `{Host} self repo_ best :
  repo self = Some repo_ → _get_best_refs self repo_ = inr best →
  users_f self = (inr (VUsers (users_loop (PyDict.values best))), self).
Proof. intros Hr Hb. unfold users_f. munfold. by rewrite Hr, Hb. Qed.

(** C1, as amended: the selection never fails; it has one entry for
    each last path segment of a reference whose name contains
    [binsync/]; within a group it keeps the reference of the configured
    remote (the last such one listed) ahead of every other reference,
    local ones included, and without one it keeps the reference listed
    first. [users()] runs over exactly these entries. *)
Theorem best_refs_selection self (repo_ : Repo) :
  ∃ best,
    _get_best_refs self repo_ = inr best
    ∧ NoDup (PyDict.keys best)
    ∧ (∀ k, PyDict.lookup k best = chosen self (group k (refs repo_)))
    ∧ (∀ (H : Host), repo self = Some repo_ →
         users_f self = (inr (VUsers (users_loop (PyDict.values best))), self)).
Proof.
  destruct (best_refs_loop_spec self (refs repo_) []) as (best & Hbest & Hk).
  exists best. split; [done|]. split; [|split].
  - apply (best_refs_loop_nodup self (refs repo_) [] best Hbest). apply NoDup_nil_2.
  - intros k. rewrite Hk. simpl. apply keep_fold_none.
  - intros H Hr. by apply (users_f_best self repo_).
Qed.

(** C1 as stated does not hold: with Alice's branch both local and on
    the configured remote, the two references are in one group and the
    selection keeps the remote one. *)
Lemma best_refs_remote_over_local :
  ∃ best,
    _get_best_refs Scenario.alice (Scenario.repository "aa") = inr best
    ∧ group "alice" (refs (Scenario.repository "aa"))
      = [Scenario.local_alice; Scenario.origin_alice]
    ∧ is_remote Scenario.local_alice = false
    ∧ is_remote Scenario.origin_alice = true
    ∧ PyDict.lookup "alice" best = Some Scenario.origin_alice
    ∧ ¬ prefers_local (refs (Scenario.repository "aa")) best.
Proof.
  eexists. split; [vm_compute; reflexivity|].
  assert (Hg : group "alice" (refs (Scenario.repository "aa"))
               = [Scenario.local_alice; Scenario.origin_alice]) by reflexivity.
  split; [exact Hg|]. split; [reflexivity|]. split; [reflexivity|].
  split; [reflexivity|]. intros Hp.
  specialize (Hp "alice" Scenario.origin_alice Scenario.local_alice).
  assert (Hfalse : is_remote Scenario.origin_alice = false); [|done].
  apply Hp; [reflexivity| |reflexivity].
  rewrite Hg. by left.
Qed.

End BestRefs.

(* ===================================================================== *)
(** * Attaching to a repository on disk                                   *)
(* ===================================================================== *)

Section Attach.
Import Spec.
Implicit Types (self : Client.Client) (r : Repo) (w : World).






Lemma endswith_refl s : PyStr.endswith s s = true.
Proof. rewrite endswith_unfold. by rewrite String.eqb_refl. Qed.






End Attach.

(* ===================================================================== *)
(** * Where the bad-username error can come from                         *)
(* ===================================================================== *)

Section Quiet.
Import Spec.

Lemma quiet_ret {S A} (a : A) : quiet (mret a : M S A).
Proof. by intros s e s'. Qed.

Lemma quiet_raise {S A} e : other_error e → quiet (raise e : M S A).
Proof. intros He s e' s' [= <- <-]. done. Qed.

Lemma quiet_get {S} : quiet (get : M S S).
Proof. by intros s e s'. Qed.

Lemma quiet_gets {S A} (f : S → A) : quiet (gets f).
Proof. by intros s e s'. Qed.

Lemma quiet_modify {S} (f : S → S) : quiet (modify f).
Proof. by intros s e s'. Qed.

Lemma quiet_bind {S A B} (m : M S A) (k : A → M S B) :
  quiet m → (∀ a, quiet (k a)) → quiet (m ≫= k).
Proof.
  intros Hm Hk s e s'. munfold. destruct (m s) as [[e1|a] s1] eqn:Hms.
  - intros [= <- <-]. by eapply Hm.
  - intros Hks. by eapply Hk.
Qed.

Lemma quiet_fmap {S A B} (f : A → B) (m : M S A) : quiet m → quiet (f <$> m).
Proof.
  intros Hm s e s'. munfold. destruct (m s) as [[e1|a] s1] eqn:Hms; [|done].
  intros [= <- <-]. by eapply Hm.
Qed.

Lemma quiet_try_except {S A} (body : M S A) handled handler :
  quiet body → (∀ e, quiet (handler e)) → quiet (try_except body handled handler).
Proof.
  intros Hb Hh s e s'. unfold try_except.
  destruct (body s) as [[e1|a] s1] eqn:Hbs; [|done].
  destruct (handled e1).
  - intros Hhs. by eapply Hh.
  - intros [= <- <-]. by eapply Hb.
Qed.

Lemma quiet_zoom {S T A} (proj : S → T) (inj : T → S → S) (m : M T A) :
  quiet m → quiet (zoom proj inj m).
Proof.
  intros Hm s e s'. unfold zoom. destruct (m (proj s)) as [res t'] eqn:Hmt.
  intros [= -> <-]. by eapply Hm.
Qed.

Lemma quiet_self {X A} (m : M Client.Client A) : quiet m → quiet (self_ (X:=X) m).
Proof. apply quiet_zoom. Qed.

Lemma quiet_beside {X A} (m : M X A) : quiet m → quiet (beside_ m).
Proof. apply quiet_zoom. Qed.

Lemma quiet_on_repo {A} (m : M Repo A) : quiet m → quiet (on_repo m).
Proof.
  intros Hm c e c'. unfold on_repo. destruct (repo c) as [r|].
  - destruct (m r) as [res r'] eqn:Hmr. intros [= -> <-]. by eapply Hm.
  - by intros [= <- <-].
Qed.

Lemma quiet_for_each {S A} (l : list A) (body : A → M S unit) :
  (∀ a, quiet (body a)) → quiet (for_each l body).
Proof.
  intros Hb. induction l as [|a l IH]; simpl.
  - apply quiet_ret.
  - apply quiet_bind; [apply Hb | intros _; apply IH].
Qed.

Ltac quiet_prim :=
  intros ? ? ?; repeat case_match; intros [= <- <-]; done.

Lemma quiet_checkout n : quiet (checkout n).
Proof. unfold checkout. quiet_prim. Qed.

Lemma quiet_create_head p rev : quiet (create_head p rev).
Proof. unfold create_head. quiet_prim. Qed.

Lemma quiet_index_commit msg now : quiet (index_commit msg now).
Proof. unfold index_commit. quiet_prim. Qed.

Lemma quiet_checkout_track n : quiet (checkout_track n).
Proof.
  unfold checkout_track, remote_name. intros ? ? ?.
  repeat case_match; simplify_eq; intros [= <- <-]; done.
Qed.

Lemma quiet_Repo_open p : quiet (Repo_open p).
Proof. unfold Repo_open. quiet_prim. Qed.

Lemma quiet_Repo_init p : quiet (Repo_init p).
Proof. by intros ? ? ?. Qed.

Lemma quiet_clone_from url p env : quiet (clone_from url p env).
Proof. unfold clone_from. quiet_prim. Qed.

Lemma quiet_lock_acquire p : quiet (lock_acquire p).
Proof. unfold lock_acquire. quiet_prim. Qed.

Lemma quiet_get_or_init_user_branch : quiet _get_or_init_user_branch.
Proof.
  apply quiet_bind; [apply quiet_get|]. intros self.
  apply quiet_on_repo, quiet_bind; [apply quiet_get|]. intros r.
  apply quiet_bind; [|intros; apply quiet_checkout].
  repeat case_match; first [apply quiet_create_head | apply quiet_ret].
Qed.

Lemma quiet_localize_remote_branches : quiet _localize_remote_branches.
Proof.
  apply quiet_bind; [apply quiet_get|]. intros self.
  apply quiet_on_repo, quiet_bind; [apply quiet_get|]. intros r.
  unfold remote_refs. case_bool_decide; [|apply quiet_ret].
  apply quiet_for_each. intros branch.
  repeat case_match; try apply quiet_ret.
  apply quiet_try_except; [apply quiet_checkout_track | intros; apply quiet_ret].
Qed.

Lemma quiet_setup_repo now : quiet (_setup_repo now).
Proof.
  apply quiet_bind; [apply quiet_get|]. intros self. apply quiet_on_repo.
  repeat (apply quiet_bind; [first [apply quiet_modify | apply quiet_index_commit
                                    | apply quiet_create_head] | intros]).
  apply quiet_ret.
Qed.

Lemma quiet_get_stored_hash : quiet _get_stored_hash.
Proof.
  apply quiet_on_repo, quiet_bind; [apply quiet_get|]. intros r.
  unfold read_blob. repeat case_match; simplify_eq;
    first [apply quiet_ret | by apply quiet_raise].
Qed.

Lemma quiet_clone url nhc : quiet (clone url nhc).
Proof.
  apply quiet_bind; [apply quiet_gets|]. intros self.
  apply quiet_bind; [apply quiet_beside, quiet_clone_from|]. intros r.
  destruct nhc; [apply quiet_ret|].
  destruct (try_except _ _ _ r) as [[e|b] r'] eqn:Ht; [|apply quiet_ret].
  apply quiet_raise.
  eapply (quiet_try_except _ _ _ (quiet_create_head _ _)); [|exact Ht].
  intros e'. by apply quiet_raise.
Qed.

End Quiet.

(* ===================================================================== *)
(** * Construction: what it guarantees                                    *)
(* ===================================================================== *)

Section ConstructionProps.
Import Spec.

Lemma quiet_get_or_init_binsync_repo url init now :
  quiet (_get_or_init_binsync_repo url init now).
Proof.
  unfold _get_or_init_binsync_repo.
  apply quiet_bind.
  { destruct (truthy url).
    - apply quiet_bind; [apply quiet_gets|]. intros self.
      apply quiet_bind.
      { repeat case_match; first [apply quiet_ret | by apply quiet_raise
                                 | apply quiet_self, quiet_modify]. }
      intros _. apply quiet_bind; [apply quiet_clone|]. intros r.
      apply quiet_bind; [apply quiet_self, quiet_modify|]. intros _.
      repeat case_match; first [apply quiet_ret | by apply quiet_raise
                               | apply quiet_self, quiet_setup_repo].
    - apply quiet_try_except.
      + apply quiet_bind; [apply quiet_gets|]. intros self.
        apply quiet_bind; [apply quiet_beside, quiet_Repo_open|]. intros r.
        apply quiet_bind; [apply quiet_self, quiet_modify|]. intros _.
        apply quiet_bind; [apply quiet_self, quiet_localize_remote_branches|]. intros _.
        destruct init; [by apply quiet_raise|].
        apply quiet_bind; [apply quiet_gets|]. intros self'.
        case_match; [by apply quiet_raise | apply quiet_ret].
      + intros e. destruct init; [|by apply quiet_raise].
        apply quiet_bind; [apply quiet_gets|]. intros self.
        apply quiet_bind; [apply quiet_beside, quiet_Repo_init|]. intros r.
        apply quiet_bind; [apply quiet_self, quiet_modify|]. intros _.
        apply quiet_self, quiet_setup_repo. }
  intros _. apply quiet_bind; [apply quiet_self, quiet_get_stored_hash|]. intros stored.
  apply quiet_bind; [apply quiet_gets|]. intros self.
  apply quiet_bind.
  { case_match; [apply quiet_self, quiet_modify | apply quiet_ret]. }
  intros _. apply quiet_bind; [apply quiet_self, quiet_on_repo, quiet_gets|]. intros b.
  apply quiet_bind.
  { destruct b; [by apply quiet_raise | apply quiet_ret]. }
  intros _. apply quiet_bind; [apply quiet_gets|]. intros self'.
  apply quiet_bind; [apply quiet_self, quiet_modify|]. intros _.
  apply quiet_bind; [apply quiet_beside, quiet_lock_acquire|]. intros _.
  apply quiet_gets.
Qed.

(** C7: a username that ends with the path separator or contains
    [__root__] makes the construction fail with the bad-username error
    before anything outside the object is touched; for every other
    username the check passes, and whatever else the construction may
    fail with, it is not that error. *)
Theorem init_username_check u root h rem ci init url pid sock now w :
  (ends_with_separator u ∨ mentions_root u →
     __init__ u root h rem ci init url pid sock now w = (inl (BadUsername u), w))
  ∧ (¬ (ends_with_separator u ∨ mentions_root u) →
     PyStr.endswith u "/" || PyStr.contains "__root__" u = false
     ∧ ∀ e w', __init__ u root h rem ci init url pid sock now w = (inl e, w') →
               other_error e).
Proof.
  split; [apply init_bad_username|].
  intros Hok.
  assert (Hguard : PyStr.endswith u "/" || PyStr.contains "__root__" u = false).
  { apply not_true_is_false. by rewrite username_guard. }
  split; [done|]. intros e w'. unfold __init__. rewrite Hguard.
  match goal with |- context [mbind ?k ?m ?s] =>
    destruct (mbind k m s) as [[e1|[]] [self' w1]] eqn:Hbody end; [|done].
  intros [= <- <-].
  erewrite bind_eq_inr in Hbody by reflexivity.
  revert Hbody. apply quiet_bind; [apply quiet_get_or_init_binsync_repo|].
  intros r. apply quiet_bind; [apply quiet_self, quiet_modify|]. intros _.
  apply quiet_bind; [apply quiet_self, quiet_modify|]. intros _.
  apply quiet_self, quiet_get_or_init_user_branch.
Qed.


End ConstructionProps.

(* ===================================================================== *)
(** * The decorator: cache first, scheduler next, cache last             *)
(* ===================================================================== *)

Section DecoratorOrder.
Import Spec.

(** C6: a call to a cacheable operation that does not ask to bypass
    the cache returns the stored value at once when there is one,
    leaving the client, and so the log of the scheduler, untouched.
    When there is none the job is handed to the scheduler and run; if
    it returns, its value is stored in the cache and is what the same
    lookup then finds; if it raises, the failure goes to the caller
    and nothing is stored. A stored value is a value other than None:
    the decorator tests [cache_item is not None]. *)
Theorem atomic_cache_then_schedule {H : Host} {X : Type} op
    (f : kwargs → M (Client.Client * X) value) kw self (x : X) :
  cacheable op →
  default false (kw_no_cache kw) = false →
  (_check_cache_ op kw self ≠ VNone →
     atomic_git_action op f kw (self, x) = (inr (_check_cache_ op kw self), (self, x)))
  ∧ (_check_cache_ op kw self = VNone →
     submitted (scheduler (logged op kw self))
       = submitted (scheduler self) ++ [(op, default SLOW (kw_priority kw))]
     ∧ (∀ v self' x', f kw (logged op kw self, x) = (inr v, (self', x')) →
          atomic_git_action op f kw (self, x)
            = (inr v, ((_set_cache op v kw self').2, x'))
          ∧ _check_cache_ op kw (_set_cache op v kw self').2 = v)
     ∧ (∀ e s', f kw (logged op kw self, x) = (inl e, s') →
          atomic_git_action op f kw (self, x) = (inl e, s'))).
Proof.
  intros Hop Hnc. split; [by apply atomic_hit|].
  intros Hnone. split; [reflexivity|].
  assert (Hmiss : misses op kw self) by (by right).
  split.
  - intros v self' x' Hf. split; [|by apply set_cache_read_back].
    rewrite atomic_miss by done. by rewrite Hf.
  - intros e s' Hf. rewrite atomic_miss by done. by rewrite Hf.
Qed.

End DecoratorOrder.

(* ===================================================================== *)
(** * Runs on the small repository                                        *)
(* ===================================================================== *)

Section Runs.
Import Spec Scenario.



Lemma username_fit u :
  PyStr.endswith u "/" || PyStr.contains "__root__" u = false →
  ¬ (ends_with_separator u ∨ mentions_root u).
Proof. intros Hg Hbad%username_guard. congruence. Qed.

(** C8: on an https URL the derived root is not the final path segment
    but everything after the first slash: the client built from
    [https://github.com/user/repo.git] and an empty [repo_root] works
    in [/github.com/user/repo]. *)
Theorem init_repo_root_from_https_url :
  PyStr.findall_slash_git_0 "https://github.com/user/repo.git"
    = Some "/github.com/user/repo"
  ∧ ∃ self w',
      __init__ "alice" EmptyString "aa" "origin" 10 false
        (Some "https://github.com/user/repo.git") None None 0 hosting_world
        = (inr self, w')
      ∧ repo_root self = "/github.com/user/repo"
      ∧ repo_root self ≠ "repo".
Proof.
  split; [reflexivity|].
  eexists _, _. split; [vm_compute; reflexivity|]. split; [reflexivity|done].
Qed.


(** C2 as stated does not hold: Bob's branch exists, the parse of its
    tree fails with MetadataNotFoundError, Bob is not the master user,
    and [get_state(user="bob")] returns None instead of raising. *)
Lemma get_state_swallows_metadata_failure :
  "bob" ≠ master_user alice
  ∧ _get_tree alice "bob" (repository "aa") = inr (root_tree "aa")
  ∧ State_parse (Host:=host) (root_tree "aa") None = inl MetadataNotFoundError
  ∧ get_state_f (H:=host) (Some "bob") None alice = (inr VNone, alice)
  ∧ (get_state (H:=host) (mkKwargs (Some "bob") None None None) (alice, tt)).1
    = inr VNone.
Proof.
  split; [done|]. split; [vm_compute; reflexivity|]. split; [reflexivity|].
  split; vm_compute; reflexivity.
Qed.

End Runs.

(* ===================================================================== *)
(** * The theorems at work on the small repository                        *)
(* ===================================================================== *)

Section Witnesses.
Import Spec Scenario.

Lemma init_username_check_witness :
  (ends_with_separator "bob/" ∨ mentions_root "bob/")
  ∧ __init__ "bob/" "/tmp/r1" "aa" "origin" 10 false None None None 0 (world "aa")
    = (inl (BadUsername "bob/"), world "aa")
  ∧ ¬ (ends_with_separator "alice" ∨ mentions_root "alice")
  ∧ PyStr.endswith "alice" "/" || PyStr.contains "__root__" "alice" = false.
Proof.
  assert (Hbad : ends_with_separator "bob/" ∨ mentions_root "bob/").
  { left. exists "bob". reflexivity. }
  assert (Hok : ¬ (ends_with_separator "alice" ∨ mentions_root "alice")).
  { apply username_fit. reflexivity. }
  split; [exact Hbad|]. split.
  - exact (proj1 (init_username_check "bob/" "/tmp/r1" "aa" "origin" 10 false None
                    None None 0 (world "aa")) Hbad).
  - split; [exact Hok|].
    exact (proj1 (proj2 (init_username_check "alice" "/tmp/r1" "aa" "origin" 10 false
                           None None None 0 (world "aa")) Hok)).
Defined.


Lemma ssh_agent_env_spec_witness :
  ssh_agent_pid alice_with_agent = Some 4242%Z
  ∧ ssh_auth_sock alice_with_agent = Some "/tmp/ssh-XX/agent.4241"
  ∧ ssh_agent_env alice_with_agent
    = {[ "SSH_AGENT_PID" := "4242"; "SSH_AUTH_SOCK" := "/tmp/ssh-XX/agent.4241" ]}
  ∧ ssh_agent_pid alice = None
  ∧ ssh_agent_env alice = ∅.
Proof.
  split; [reflexivity|]. split; [reflexivity|]. split.
  - exact (proj1 (proj1 (ssh_agent_env_spec alice_with_agent) 4242%Z
                    "/tmp/ssh-XX/agent.4241" eq_refl eq_refl)).
  - split; [reflexivity|].
    exact (proj2 (ssh_agent_env_spec alice) (or_introl eq_refl)).
Defined.

Lemma get_state_unknown_user_witness :
  repo alice = Some (repository "aa")
  ∧ (∀ ref, ref ∈ refs (repository "aa") →
       ¬ has_suffix (name ref) ("binsync/" +:+ "carol"))
  ∧ ∃ msg,
      get_state_f (H:=host) (Some "carol") None alice = (inl (ValueError msg), alice)
      ∧ get_state (H:=host) (mkKwargs (Some "carol") None None None) (alice, tt)
        = (inl (ValueError msg),
           (logged get_state_m (mkKwargs (Some "carol") None None None) alice, tt)).
Proof.
  assert (Hno : ∀ ref, ref ∈ refs (repository "aa") →
                  ¬ has_suffix (name ref) ("binsync/" +:+ "carol")).
  { apply no_suffix_check. reflexivity. }
  split; [reflexivity|]. split; [exact Hno|].
  destruct (get_state_unknown_user (H:=host) alice (repository "aa") "carol" None
              eq_refl Hno) as (msg & Hbody & Hwrapped & _).
  exists msg. split; [exact Hbody|].
  apply Hwrapped; [reflexivity | reflexivity | right; reflexivity].
Defined.

Lemma get_state_metadata_not_found_witness :
  repo alice = Some (repository "aa")
  ∧ repo bob = Some (repository "aa")
  ∧ get_state_f (H:=host) (Some "bob") None alice = (inr VNone, alice)
  ∧ (get_state (H:=host) (mkKwargs (Some "bob") None None None) (alice, tt)).1
    = inr VNone
  ∧ get_state_f (H:=host) (Some "bob") None bob
    = (inr (VState (State_init "bob")), bob)
  ∧ (get_state (H:=host) no_kwargs (bob, tt)).1 = inr (VState (State_init "bob")).
Proof.
  split; [reflexivity|]. split; [reflexivity|].
  destruct (get_state_metadata_not_found (H:=host) alice (repository "aa") None eq_refl)
    as (Hother & _ & _).
  destruct (get_state_metadata_not_found (H:=host) bob (repository "aa") None eq_refl)
    as (_ & Hmaster & _).
  assert (Hne : "bob" ≠ master_user alice) by done.
  destruct (Hother "bob" (root_tree "aa") eq_refl eq_refl Hne) as [Hbody Hwrapped].
  destruct (Hmaster (root_tree "aa") eq_refl eq_refl) as (Hnamed & _ & Hdefault).
  split; [exact Hbody|]. split.
  - apply Hwrapped; [reflexivity | reflexivity | right; reflexivity].
  - split; [exact Hnamed|].
    apply Hdefault; [left; reflexivity | reflexivity | right; reflexivity].
Defined.

Lemma commit_state_external_user_witness :
  user foreign_state ≠ master_user alice
  ∧ commit_state (H:=host) "m1" 300 no_kwargs (alice, foreign_state)
    = (inl (ExternalUserCommitError "alice" "bob"),
       (logged commit_state_m no_kwargs alice, foreign_state))
  ∧ repo (logged commit_state_m no_kwargs alice) = repo alice.
Proof.
  assert (Hne : user foreign_state ≠ master_user alice) by done.
  split; [exact Hne|].
  destruct (commit_state_external_user (H:=host) alice foreign_state "m1" 300 no_kwargs Hne)
    as (_ & Hwrapped & Hrepo & _).
  split; [exact Hwrapped | exact Hrepo].
Defined.

Lemma commit_state_no_change_witness :
  let self1 :=
    (stage (H:=host) committed_state (logged commit_state_m no_kwargs alice)).2 in
  user committed_state = master_user alice
  ∧ repo alice = Some (repository "aa")
  ∧ stage (H:=host) committed_state (logged commit_state_m no_kwargs alice)
    = (inr tt, self1)
  ∧ repo self1 = Some (repository "aa")
  ∧ head_commit (repository "aa") = Some alice_commit
  ∧ index (repository "aa") = tree alice_commit
  ∧ commit_state (H:=host) "m1" 300 no_kwargs (alice, committed_state)
    = (inr VNone, (self1, committed_state))
  ∧ _last_commit_ts self1 = _last_commit_ts alice.
Proof.
  intros self1.
  assert (Hstage : stage (H:=host) committed_state
                     (logged commit_state_m no_kwargs alice) = (inr tt, self1)).
  { vm_compute. reflexivity. }
  assert (Hrepo : repo self1 = Some (repository "aa")).
  { vm_compute. reflexivity. }
  split; [reflexivity|]. split; [reflexivity|]. split; [exact Hstage|].
  split; [exact Hrepo|]. split; [reflexivity|]. split; [reflexivity|].
  destruct (commit_state_no_change (H:=host) alice committed_state "m1" 300 no_kwargs
              self1 (repository "aa") (repository "aa") alice_commit
              eq_refl eq_refl Hstage Hrepo eq_refl eq_refl)
    as (Hrun & _ & _ & _ & Hts).
  split; [exact Hrun | exact Hts].
Defined.

Lemma atomic_cache_then_schedule_witness :
  cacheable get_state_m
  ∧ default false (kw_no_cache no_kwargs) = false
  ∧ _check_cache_ get_state_m no_kwargs alice_cached = VState cached_state
  ∧ get_state (H:=host) no_kwargs (alice_cached, tt)
    = (inr (VState cached_state), (alice_cached, tt))
  ∧ _check_cache_ get_state_m no_kwargs alice = VNone
  ∧ submitted (scheduler (logged get_state_m no_kwargs alice))
    = [(get_state_m, SLOW)].
Proof.
  assert (Hop : cacheable get_state_m) by (by left).
  split; [exact Hop|]. split; [reflexivity|]. split; [reflexivity|].
  destruct (atomic_cache_then_schedule (H:=host) (X:=unit) get_state_m
              (λ kw, self_ (get_state_f (H:=host) (kw_user kw) (kw_version kw)))
              no_kwargs alice_cached tt Hop eq_refl) as [Hhit _].
  destruct (atomic_cache_then_schedule (H:=host) (X:=unit) get_state_m
              (λ kw, self_ (get_state_f (H:=host) (kw_user kw) (kw_version kw)))
              no_kwargs alice tt Hop eq_refl) as [_ Hmiss].
  split; [|split; [reflexivity|]].
  - apply Hhit. discriminate.
  - exact (proj1 (Hmiss eq_refl)).
Defined.

Lemma best_refs_selection_witness :
  repo alice = Some (repository "aa")
  ∧ ∃ best,
      _get_best_refs alice (repository "aa") = inr best
      ∧ PyDict.lookup "alice" best
        = chosen alice (group "alice" (refs (repository "aa")))
      ∧ users_f (H:=host) alice
        = (inr (VUsers (users_loop (H:=host) (PyDict.values best))), alice).
Proof.
  split; [reflexivity|].
  destruct (best_refs_selection alice (repository "aa")) as (best & Hbest & _ & Hk & Hu).
  exists best. split; [exact Hbest|]. split; [apply Hk|].
  apply Hu. reflexivity.
Defined.

End Witnesses.

(* ===================================================================== *)
(** * The newest tree of a user                                           *)
(* ===================================================================== *)

Section Newest.
Import Spec Scenario.
Implicit Types (self : Client.Client) (r : Repo).

(** [max] returns the first of the greatest: what is listed before it
    is strictly smaller, what is listed after it is not greater. *)
Lemma py_max_first_greatest {A} (key : A → Z) b l :
  ∃ l1 l2, b :: l = l1 ++ py_max key b l :: l2
    ∧ (∀ y, y ∈ l1 → (key y < key (py_max key b l))%Z)
    ∧ (∀ y, y ∈ l2 → (key y ≤ key (py_max key b l))%Z).
Proof.
  revert b. induction l as [|a l IH]; intros b.
  { exists [], []. split; [done|]. split; intros y Hy; by apply elem_of_nil in Hy. }
  simpl. destruct (Z.ltb_spec (key b) (key a)) as [Hlt|Hge].
  - destruct (IH a) as (l1 & l2 & Heq & Hl1 & Hl2).
    exists (b :: l1), l2. split; [simpl; by rewrite <- Heq|]. split; [|done].
    intros y [->|Hy]%elem_of_cons; [|by apply Hl1].
    destruct l1 as [|a' l1'].
    + injection Heq as Ha _. by rewrite <- Ha.
    + injection Heq as Ha _. subst a'.
      assert (key a < key (py_max key a l))%Z by (apply Hl1; by left). lia.
  - destruct (IH b) as (l1 & l2 & Heq & Hl1 & Hl2).
    destruct l1 as [|b' l1'].
    + injection Heq as Hb Hl. exists [], (a :: l2). split; [simpl; by rewrite <- Hb, Hl|].
      split; [intros y Hy; by apply elem_of_nil in Hy|].
      intros y [->|Hy]%elem_of_cons; [|by apply Hl2]. rewrite <- Hb. lia.
    + injection Heq as Hb Hl. subst b'. exists (b :: a :: l1'), l2.
      split; [simpl; do 2 f_equal; exact Hl|]. split; [|done].
      intros y [->|[->|Hy]%elem_of_cons]%elem_of_cons.
      * apply Hl1. by left.
      * assert (key b < key (py_max key b l))%Z by (apply Hl1; by left). lia.
      * apply Hl1. by right.
Qed.

(** X1: when [_get_tree] returns a tree, it is the tree of a reference
    of the repository whose name ends with [binsync/<user>], picked
    among all such references (local, remote or tag alike): every
    matching reference listed before it has a strictly older commit and
    none has a newer one, so on a tie the reference listed first wins. *)
Theorem get_tree_newest self u r t :
  _get_tree self u r = inr t →
  ∃ before best after,
    List.filter (λ ref, PyStr.endswith (name ref) ("binsync/" +:+ u)) (refs r)
      = before ++ best :: after
    ∧ t = tree (commit best)
    ∧ best ∈ refs r
    ∧ has_suffix (name best) ("binsync/" +:+ u)
    ∧ (∀ ref, ref ∈ before →
         (authored_date (commit ref) < authored_date (commit best))%Z)
    ∧ (∀ ref, ref ∈ refs r → has_suffix (name ref) ("binsync/" +:+ u) →
         (authored_date (commit ref) ≤ authored_date (commit best))%Z).
Proof.
  unfold _get_tree, BINSYNC_BRANCH_PREFIX.
  change ("binsync" +:+ "/" +:+ u) with ("binsync/" +:+ u).
  destruct (List.filter _ (refs r)) as [|o os] eqn:Hf; [done|].
  intros [= <-].
  destruct (py_max_first_greatest (λ ref, authored_date (commit ref)) o os)
    as (l1 & l2 & Heq & Hl1 & Hl2).
  set (best := py_max (λ ref, authored_date (commit ref)) o os) in *.
  assert (Hin : ∀ ref, ref ∈ l1 ++ best :: l2 ↔
            ref ∈ refs r ∧ PyStr.endswith (name ref) ("binsync/" +:+ u) = true).
  { intros ref. rewrite <- Heq, <- Hf, !list_elem_of_In. apply filter_In. }
  assert (Hbest : best ∈ refs r ∧ PyStr.endswith (name best) ("binsync/" +:+ u) = true).
  { apply Hin. apply elem_of_app. right. by left. }
  exists l1, best, l2. split; [done|]. split; [done|]. split; [apply Hbest|].
  split; [apply endswith_spec, Hbest|]. split; [done|].
  intros ref Href Hsuf.
  assert (Hm : ref ∈ l1 ++ best :: l2).
  { apply Hin. split; [done|]. by apply endswith_spec. }
  apply elem_of_app in Hm as [Hm|[->|Hm]%elem_of_cons].
  - specialize (Hl1 ref Hm). simpl in Hl1. lia.
  - lia.
  - by apply Hl2.
Qed.

Lemma get_tree_newest_witness :
  _get_tree alice "alice" (repository "aa") = inr alice_tree
  ∧ ∃ before best after,
      List.filter (λ ref, PyStr.endswith (name ref) ("binsync/" +:+ "alice"))
        (refs (repository "aa")) = before ++ best :: after
      ∧ alice_tree = tree (commit best)
      ∧ best ∈ refs (repository "aa").
Proof.
  assert (Hrun : _get_tree alice "alice" (repository "aa") = inr alice_tree).
  { vm_compute. reflexivity. }
  split; [exact Hrun|].
  destruct (get_tree_newest alice "alice" (repository "aa") alice_tree Hrun)
    as (before & best & after & Hf & Ht & Hin & _).
  exists before, best, after. split; [exact Hf|]. split; [exact Ht | exact Hin].
Defined.

End Newest.

(* ===================================================================== *)
(** * The commits of the selected references                              *)
(* ===================================================================== *)

Section Commits.
Import Spec.
Implicit Types (self : Client.Client) (r : Repo).

Lemma split_nonempty sep s : PyStr.split sep s ≠ [].
Proof.
  destruct s as [|c s]; simpl; [done|].
  destruct (Ascii.eqb c sep); [done|]. by destruct (PyStr.split sep s).
Qed.

(** No piece of a split contains the separator. *)
Lemma split_no_sep sep s w :
  w ∈ PyStr.split sep s → PyStr.contains (String sep EmptyString) w = false.
Proof.
  revert w. induction s as [|c s IH]; intros w; simpl.
  { intros ->%list_elem_of_singleton. reflexivity. }
  destruct (Ascii.eqb_spec c sep) as [->|Hne].
  - intros [->|Hw]%elem_of_cons; [reflexivity | by apply IH].
  - assert (Hstep : ∀ w0, PyStr.contains (String sep EmptyString) w0 = false →
              PyStr.contains (String sep EmptyString) (String c w0) = false).
    { intros w0 Hw0. rewrite contains_unfold. simpl.
      destruct (ascii_dec sep c) as [Heq|_]; [by destruct Hne|]. exact Hw0. }
    destruct (PyStr.split sep s) as [|w0 ws] eqn:Hs.
    + intros ->%list_elem_of_singleton. by apply Hstep.
    + intros [->|Hw]%elem_of_cons.
      * apply Hstep, IH. by left.
      * apply IH. by right.
Qed.

Lemma last_segment_no_slash s : PyStr.contains "/" (PyStr.last_segment s) = false.
Proof.
  unfold PyStr.last_segment. apply (split_no_sep PyStr.slash s).
  pose proof (split_nonempty PyStr.slash s) as Hne.
  destruct (PyStr.split PyStr.slash s) as [|w ws]; [done|].
  apply list_elem_of_In. apply (List.exists_last) in Hne as Hlast.
  clear Hne. destruct Hlast as (l' & a & Heq). rewrite Heq.
  rewrite List.last_last. apply in_or_app. right. by left.
Qed.

Lemma chosen_in self g ref : chosen self g = Some ref → ref ∈ g.
Proof.
  unfold chosen. destruct (last _) as [x|] eqn:Hl.
  - intros [= <-]. apply last_Some in Hl as [l' Hl].
    assert (Hx : In x (List.filter (of_configured_remote self) g)).
    { rewrite Hl. apply in_or_app. right. by left. }
    apply filter_In in Hx as [Hx _]. by apply list_elem_of_In.
  - destruct g as [|y g]; simpl; [done|]. intros [= <-]. by left.
Qed.

Lemma chosen_is_Some self g ref : ref ∈ g → is_Some (chosen self g).
Proof.
  unfold chosen. destruct (last _); [by eexists|].
  destruct g; [by intros ?%elem_of_nil | by eexists].
Qed.

Lemma best_refs_entries self r :
  ∃ best, _get_best_refs self r = inr best
    ∧ ∀ k, PyDict.lookup k best = chosen self (group k (refs r)).
Proof.
  destruct (best_refs_loop_spec self (refs r) []) as (best & Hbest & Hk).
  exists best. split; [done|]. intros k. rewrite Hk. apply keep_fold_none.
Qed.

Lemma group_elem k l ref :
  ref ∈ group k l ↔ ref ∈ l ∧ takes_part ref = true ∧ PyStr.last_segment (name ref) = k.
Proof.
  unfold group. rewrite !list_elem_of_In, filter_In, andb_true_iff, String.eqb_eq.
  reflexivity.
Qed.

Lemma dict_lookup_fmap {V W} (f : V → W) k (d : PyDict.t V) :
  PyDict.lookup k ((λ kv, (kv.1, f kv.2)) <$> d) = f <$> PyDict.lookup k d.
Proof.
  induction d as [|[k0 v0] d IH]; [done|].
  rewrite fmap_cons. cbn [PyDict.lookup fst snd].
  destruct (String.eqb k0 k); [done | exact IH].
Qed.

(** X2: the keys of the selection are last path segments, so none of
    them contains a slash; the test [BINSYNC_ROOT_BRANCH in ref_dict]
    of [_get_commits_for_users] therefore never holds and nothing is
    deleted: the commit dictionary has one entry for every selected
    reference, in the same order, and the root branch, when the
    repository has one, is in it under the key [__root__]. *)
Theorem commits_for_users_keep_root self r :
  ∃ best,
    _get_best_refs self r = inr best
    ∧ (∀ k ref, PyDict.lookup k best = Some ref →
         ref ∈ refs r ∧ PyStr.contains "binsync/" (name ref) = true
         ∧ k = PyStr.last_segment (name ref) ∧ PyStr.contains "/" k = false)
    ∧ PyDict.mem BINSYNC_ROOT_BRANCH best = false
    ∧ _get_commits_for_users self r
      = inr ((λ kv, (kv.1, hexsha (commit kv.2))) <$> best)
    ∧ (∀ k commits, _get_commits_for_users self r = inr commits →
         PyDict.lookup k commits = (λ ref, hexsha (commit ref)) <$> PyDict.lookup k best)
    ∧ (∀ ref commits, ref ∈ refs r → name ref = BINSYNC_ROOT_BRANCH →
         _get_commits_for_users self r = inr commits →
         is_Some (PyDict.lookup "__root__" commits)).
Proof.
  destruct (best_refs_entries self r) as (best & Hbest & Hk).
  assert (Hsound : ∀ k ref, PyDict.lookup k best = Some ref →
    ref ∈ refs r ∧ PyStr.contains "binsync/" (name ref) = true
    ∧ k = PyStr.last_segment (name ref) ∧ PyStr.contains "/" k = false).
  { intros k ref Hl. rewrite Hk in Hl. apply chosen_in, group_elem in Hl
      as (Hin & Htp & Hseg).
    split; [done|]. split; [exact Htp|]. split; [done|].
    rewrite <- Hseg. apply last_segment_no_slash. }
  assert (Hmem : PyDict.mem BINSYNC_ROOT_BRANCH best = false).
  { unfold PyDict.mem. destruct (PyDict.lookup BINSYNC_ROOT_BRANCH best) as [ref|] eqn:Hl;
      [|done].
    destruct (Hsound _ _ Hl) as (_ & _ & _ & Hno). vm_compute in Hno. done. }
  assert (Hrun : _get_commits_for_users self r
                 = inr ((λ kv, (kv.1, hexsha (commit kv.2))) <$> best)).
  { unfold _get_commits_for_users. by rewrite Hbest, Hmem. }
  exists best. split; [done|]. split; [done|]. split; [done|]. split; [done|].
  split.
  - intros k commits. rewrite Hrun. intros [= <-].
    apply (dict_lookup_fmap (λ ref, hexsha (commit ref))).
  - intros ref commits Hin Hname. rewrite Hrun. intros [= <-].
    rewrite (dict_lookup_fmap (λ ref, hexsha (commit ref))), Hk.
    destruct (chosen_is_Some self (group "__root__" (refs r)) ref) as [x ->];
      [|by eexists].
    apply group_elem. split; [done|]. unfold takes_part. rewrite Hname.
    split; reflexivity.
Qed.

End Commits.

(* ===================================================================== *)
(** * What a second call finds in the cache                               *)
(* ===================================================================== *)

Section Caching.
Context {H : Host}.
Import Spec Scenario.
Implicit Types (self : Client.Client) (r : Repo) (kw : kwargs).

(** X3: with a repository attached, a call of [users()] that does not
    bypass the cache always returns a value; a second call returns the
    same value from the cache, whatever its keywords, and leaves the
    client as it is: no new job goes to the scheduler. An empty list
    of users is a stored value like any other. *)
Theorem users_second_call_cached self r kw :
  repo self = Some r →
  default false (kw_no_cache kw) = false →
  ∃ v self1,
    users kw (self, tt) = (inr v, (self1, tt))
    ∧ v ≠ VNone
    ∧ repo self1 = Some r
    ∧ ∀ kw', default false (kw_no_cache kw') = false →
        users kw' (self1, tt) = (inr v, (self1, tt)).
Proof.
  intros Hr Hnc.
  destruct (decide (_check_cache_ users_m kw self = VNone)) as [Hnone|Hsome].
  - destruct (best_refs_entries (logged users_m kw self) r) as (best & Hbest & _).
    pose proof (users_f_best (logged users_m kw self) r best Hr Hbest) as Hbody.
    set (v := VUsers (users_loop (PyDict.values best))) in *.
    exists v, (_set_cache users_m v kw (logged users_m kw self)).2.
    split; [|split; [done|split; [done|]]].
    + unfold users. rewrite atomic_miss by (by right).
      by erewrite self_eq by exact Hbody.
    + intros kw' Hnc'. unfold users.
      rewrite atomic_hit; [done | done |]. done.
  - exists (_check_cache_ users_m kw self), self.
    split; [|split; [done|split; [done|]]].
    + unfold users. by rewrite atomic_hit.
    + intros kw' Hnc'. unfold users. by rewrite atomic_hit.
Qed.

(** X4: when [get_state] has answered without bypassing the cache, a
    State it returned is what the same call returns next time, from
    the cache and without a new job, also when the master user is
    named explicitly instead of being left out; an answer None is
    stored as well but is no hit, so the next call goes to the
    scheduler again. *)
Theorem get_state_cached_unless_none self kw v self1 :
  default false (kw_no_cache kw) = false →
  get_state kw (self, tt) = (inr v, (self1, tt)) →
  (v ≠ VNone →
     get_state kw (self1, tt) = (inr v, (self1, tt))
     ∧ (kw_user kw = None →
        get_state (with_user (Some (master_user self)) kw) (self1, tt)
          = (inr v, (self1, tt))))
  ∧ (v = VNone →
     misses get_state_m kw self1
     ∧ submitted (scheduler self1)
       = submitted (scheduler self) ++ [(get_state_m, default SLOW (kw_priority kw))]).
Proof.
  intros Hnc Hrun.
  assert (Hkey : kw_user kw = None → master_user self1 = master_user self →
    _check_cache_ get_state_m (with_user (Some (master_user self)) kw) self1
    = _check_cache_ get_state_m kw self1).
  { intros Hu Hm. unfold _check_cache_. rewrite Hu, Hm. reflexivity. }
  destruct (decide (_check_cache_ get_state_m kw self = VNone)) as [Hnone|Hsome].
  - rewrite get_state_miss in Hrun by (by right).
    destruct (get_state_f _ _ self).1 as [e|v'] eqn:Hbody; [done|].
    assert (Hv' : v' = v) by congruence. subst v'.
    assert (Hs : self1 = (_set_cache get_state_m v kw (logged get_state_m kw self)).2)
      by congruence.
    clear Hrun.
    pose proof (set_cache_read_back get_state_m v kw (logged get_state_m kw self)
                  (or_introl eq_refl)) as Hback.
    rewrite <- Hs in Hback.
    assert (Hm : master_user self1 = master_user self) by (by rewrite Hs).
    split.
    + intros Hv. split.
      * unfold get_state. rewrite atomic_hit; [by rewrite Hback | done |].
        by rewrite Hback.
      * intros Hu. unfold get_state.
        rewrite atomic_hit; [|done|]; rewrite Hkey by done; by rewrite Hback.
    + intros ->. split; [by right|]. by rewrite Hs.
  - unfold get_state in Hrun. rewrite atomic_hit in Hrun by done.
    injection Hrun as <- <-. split; [|done].
    intros _. split.
    + unfold get_state. by rewrite atomic_hit.
    + intros Hu. unfold get_state.
      rewrite atomic_hit; [|done|]; by rewrite Hkey.
Qed.

End Caching.

Section CachingRuns.
Import Spec Scenario.

Lemma users_second_call_cached_witness :
  repo alice = Some (repository "aa")
  ∧ ∃ v self1,
      users (H:=host) no_kwargs (alice, tt) = (inr v, (self1, tt))
      ∧ users (H:=host) no_kwargs (self1, tt) = (inr v, (self1, tt)).
Proof.
  split; [reflexivity|].
  destruct (users_second_call_cached (H:=host) alice (repository "aa") no_kwargs
              eq_refl eq_refl) as (v & self1 & Hfirst & _ & _ & Hsecond).
  exists v, self1. split; [exact Hfirst|]. apply Hsecond. reflexivity.
Defined.

Lemma get_state_cached_unless_none_witness :
  get_state (H:=host) no_kwargs (alice, tt)
    = (inr (VState (mkState "alice" false [])),
       ((_set_cache get_state_m (VState (mkState "alice" false [])) no_kwargs
           (logged get_state_m no_kwargs alice)).2, tt))
  ∧ get_state (H:=host) no_kwargs
      ((_set_cache get_state_m (VState (mkState "alice" false [])) no_kwargs
          (logged get_state_m no_kwargs alice)).2, tt)
    = (inr (VState (mkState "alice" false [])),
       ((_set_cache get_state_m (VState (mkState "alice" false [])) no_kwargs
           (logged get_state_m no_kwargs alice)).2, tt)).
Proof.
  assert (Hrun : get_state (H:=host) no_kwargs (alice, tt)
    = (inr (VState (mkState "alice" false [])),
       ((_set_cache get_state_m (VState (mkState "alice" false [])) no_kwargs
           (logged get_state_m no_kwargs alice)).2, tt))).
  { vm_compute. reflexivity. }
  split; [exact Hrun|].
  destruct (get_state_cached_unless_none (H:=host) alice no_kwargs _ _ eq_refl Hrun)
    as [Hstate _].
  exact (proj1 (Hstate ltac:(discriminate))).
Defined.

End CachingRuns.

(* ===================================================================== *)
(** * Committing a state                                                  *)
(* ===================================================================== *)

Section Committing.
Context {H : Host}.
Import Spec.
Implicit Types (self : Client.Client) (state : State) (kw : kwargs) (r : Repo).

Lemma set_repo_twice x y c : set_repo x (set_repo y c) = set_repo x c.
Proof. reflexivity. Qed.

Lemma repo_files_only_ret {A} (a : A) : repo_files_only (mret a).
Proof.
  intros c res c' r [= <- <-] Hr. exists r. by rewrite (set_repo_same c r Hr).
Qed.

Lemma repo_files_only_bind {A B} (m : M Client.Client A) (k : A → M Client.Client B) :
  repo_files_only m → (∀ a, repo_files_only (k a)) → repo_files_only (m ≫= k).
Proof.
  intros Hm Hk c res c' r. munfold.
  destruct (m c) as [[e|a] c1] eqn:Hmc.
  - intros [= <- <-] Hr. by eapply Hm.
  - intros Hkc Hr.
    destruct (Hm _ _ _ _ Hmc Hr) as (r1 & -> & Hrefs & Hobjs & Hhead & Hhooks).
    destruct (Hk a _ _ _ r1 Hkc eq_refl) as (r2 & -> & Hrefs' & Hobjs' & Hhead' & Hhooks').
    exists r2. rewrite set_repo_twice. repeat split; congruence.
Qed.

Lemma repo_files_only_for_each {A} (l : list A) (body : A → M Client.Client unit) :
  (∀ a, repo_files_only (body a)) → repo_files_only (for_each l body).
Proof.
  intros Hb. induction l as [|a l IH]; simpl.
  - apply repo_files_only_ret.
  - apply repo_files_only_bind; [apply Hb | intros _; apply IH].
Qed.

Lemma repo_files_only_on_repo {A} (m : M Repo A) :
  files_only m → repo_files_only (on_repo m).
Proof.
  intros Hm c res c' r. unfold on_repo. intros Hrun Hr. rewrite Hr in Hrun.
  destruct (m r) as [res' r'] eqn:Hmr. injection Hrun as <- <-.
  exists r'. split; [done|]. by eapply Hm.
Qed.

Lemma files_only_modify (f : Repo → Repo) :
  (∀ r, refs (f r) = refs r ∧ objects (f r) = objects r ∧ head (f r) = head r
        ∧ hooks_pass (f r) = hooks_pass r) →
  files_only (modify f).
Proof. intros Hf r res r' [= <- <-]. apply Hf. Qed.

Lemma files_only_bind {A B} (m : M Repo A) (k : A → M Repo B) :
  files_only m → (∀ a, files_only (k a)) → files_only (m ≫= k).
Proof.
  intros Hm Hk r res r'. munfold.
  destruct (m r) as [[e|a] r1] eqn:Hmr.
  - intros [= <- <-]. eapply Hm, Hmr.
  - intros Hkr. destruct (Hm _ _ _ Hmr) as (? & ? & ? & ?).
    destruct (Hk _ _ _ _ Hkr) as (? & ? & ? & ?). repeat split; congruence.
Qed.

Lemma files_only_index_add path : files_only (index_add path).
Proof.
  apply files_only_modify. intros r. by destruct (working_tree r !! path).
Qed.

Lemma files_only_index_add_glob g : files_only (index_add_glob g).
Proof. by apply files_only_modify. Qed.

Lemma repo_files_only_dump state : repo_files_only (dump state).
Proof.
  apply repo_files_only_for_each. intros [path data | path].
  - apply repo_files_only_on_repo, files_only_bind.
    + by apply files_only_modify.
    + intros _. apply files_only_index_add.
  - apply repo_files_only_on_repo. by apply files_only_modify.
Qed.

(** What staging leaves: the user branch is checked out, and nothing
    but the files of the repository has changed. *)
Lemma stage_inv state self self1 :
  stage state self = (inr tt, self1) →
  ∃ r r1 b,
    repo self = Some r ∧ self1 = set_repo (Some r1) self
    ∧ find_head (user_branch_name self) r = Some b
    ∧ refs r1 = refs r ∧ objects r1 = objects r
    ∧ head r1 = user_branch_name self ∧ hooks_pass r1 = hooks_pass r.
Proof.
  unfold stage. intros Hst.
  apply bind_inr in Hst as ([] & sa & Hco & Hst).
  apply bind_inr in Hst as ([] & sb & Hdump & Hadd).
  unfold _checkout_to_master_user, on_repo in Hco. munfold.
  destruct (repo self) as [r|] eqn:Hr; [|done].
  unfold checkout in Hco.
  destruct (find_head (user_branch_name self) r) as [b|] eqn:Hb; [|done].
  injection Hco as <-.
  destruct (repo_files_only_dump state _ _ _ _ Hdump eq_refl)
    as (rb & -> & Hrefs & Hobjs & Hhead & Hhooks).
  destruct (repo_files_only_on_repo (index_add_glob (PyStr.path_join (user state) "*"))
              (files_only_index_add_glob _) _ _ _ _ Hadd eq_refl)
    as (r1 & -> & Hrefs' & Hobjs' & Hhead' & Hhooks').
  exists r, r1, b. split; [done|]. split; [reflexivity|]. split; [done|].
  simpl in *. repeat split; congruence.
Qed.



(** The body of [commit_state] from its start to the comparison of the
    index with HEAD, for a state of the master user. *)
Lemma commit_state_f_staged self state msg now self1 r1 c :
  user state = master_user self →
  stage state self = (inr tt, self1) →
  repo self1 = Some r1 → head_commit r1 = Some c → index r1 ≠ tree c →
  commit_state_f msg now (self, state)
  = (attempt ← try_except
                 (Some <$> self_ (on_repo (index_commit msg now)))
                 (λ _, true)
                 (λ _, mret None);
     match attempt with
     | None => mret VNone
     | Some commit_ =>
         self_ (modify (set_last_commit_ts (Some now)));;
         self_ (on_repo (modify (set_refs (move_head (user_branch_name self) commit_))));;
         beside_ (modify (set_dirty false));;
         mret VNone
     end) (self1, state).
Proof.
  intros Hu Hst Hr1 Hc Hidx. unfold stage in Hst.
  apply bind_inr in Hst as ([] & sa & Hco & Hst).
  apply bind_inr in Hst as ([] & sb & Hdump & Hadd).
  destruct (checkout_to_master_user_inv _ _ Hco) as (r & ra & b & Hr & Hra & Hb).
  assert (Hname : name b = user_branch_name self).
  { apply find_some in Hb as [_ Hn]. by apply String.eqb_eq. }
  unfold commit_state_f.
  erewrite bind_eq_inr by reflexivity.
  erewrite bind_eq_inr by reflexivity. cbn [fst snd].
  rewrite bool_decide_eq_false_2 by (intros Hne; by apply Hne).
  erewrite bind_eq_inr by (apply self_eq, Hco).
  erewrite bind_eq_inr
    by (apply self_eq; erewrite on_repo_eq by (first [exact Hra | reflexivity]);
        rewrite (set_repo_same _ _ Hra); reflexivity).
  rewrite Hb.
  erewrite bind_eq_inr by (apply self_eq, Hdump).
  erewrite bind_eq_inr by (apply self_eq, Hadd).
  erewrite bind_eq_inr.
  2:{ apply self_eq. erewrite on_repo_eq; [|exact Hr1|].
      2:{ unfold index_diff_HEAD. rewrite Hc. reflexivity. }
      rewrite (set_repo_same _ _ Hr1). reflexivity. }
  rewrite bool_decide_eq_true_2 by done. cbn [negb]. by rewrite Hname.
Qed.


(** X6: under the same conditions but with a commit hook that refuses
    the commit, the failure is swallowed: [commit_state] returns None
    to its caller, no commit is added, no reference moves, the time of
    the last commit is not set, and the State keeps its dirty flag as
    it was. What was staged stays staged. *)
Theorem commit_state_swallows_commit_failure self state msg now kw self1 r0 r1 c :
  user state = master_user self →
  repo self = Some r0 →
  stage state (logged commit_state_m kw self) = (inr tt, self1) →
  repo self1 = Some r1 →
  head_commit r1 = Some c →
  index r1 ≠ tree c →
  hooks_pass r0 = false →
  commit_state msg now kw (self, state) = (inr VNone, (self1, state))
  ∧ objects r1 = objects r0
  ∧ refs r1 = refs r0
  ∧ _last_commit_ts self1 = _last_commit_ts self.
Proof.
  intros Hu Hr0 Hst Hr1 Hc Hidx Hhooks.
  destruct (stage_inv _ _ _ Hst) as (r & r1' & b & Hr & Hself1 & Hb & Hrefs & Hobjs & Hhead & Hhk).
  assert (r = r0) as -> by (simpl in Hr; congruence).
  assert (r1' = r1) as -> by (rewrite Hself1 in Hr1; simpl in Hr1; congruence).
  split; [|split; [done|split; [done|by rewrite Hself1]]].
  unfold commit_state. rewrite atomic_miss by apply commit_state_misses.
  rewrite (commit_state_f_staged _ state msg now self1 r1 c) by done.
  erewrite bind_eq_inr.
  2:{ unfold try_except, fmap, M_fmap.
      erewrite self_eq.
      2:{ apply (on_repo_eq _ _ r1); [done|]. unfold index_commit.
          rewrite Hhk, Hhooks. reflexivity. }
      rewrite (set_repo_same _ _ Hr1). reflexivity. }
  reflexivity.
Qed.

End Committing.

Section CommittingRuns.
Import Spec Scenario.

Lemma bob_tree_differs : index (bob_staged true) ≠ tree (root_commit "aa").
Proof.
  intros Heq. apply (f_equal (λ t : Tree, t !! "metadata.toml")) in Heq.
  vm_compute in Heq. discriminate.
Qed.


Lemma commit_state_swallows_commit_failure_witness :
  user foreign_state = master_user bob_strict
  ∧ hooks_pass strict_repository = false
  ∧ stage (H:=host) foreign_state (logged commit_state_m no_kwargs bob_strict)
    = (inr tt, set_repo (Some (bob_staged false))
                 (logged commit_state_m no_kwargs bob_strict))
  ∧ commit_state (H:=host) "m2" 300 no_kwargs (bob_strict, foreign_state)
    = (inr VNone,
       (set_repo (Some (bob_staged false)) (logged commit_state_m no_kwargs bob_strict),
        foreign_state))
  ∧ objects (bob_staged false) = objects strict_repository.
Proof.
  assert (Hstage : stage (H:=host) foreign_state
                     (logged commit_state_m no_kwargs bob_strict)
    = (inr tt, set_repo (Some (bob_staged false))
                 (logged commit_state_m no_kwargs bob_strict))).
  { vm_compute. reflexivity. }
  split; [reflexivity|]. split; [reflexivity|]. split; [exact Hstage|].
  destruct (commit_state_swallows_commit_failure (H:=host) bob_strict foreign_state
              "m2" 300 no_kwargs _ strict_repository (bob_staged false) (root_commit "aa")
              eq_refl eq_refl Hstage eq_refl eq_refl bob_tree_differs eq_refl)
    as (Hrun & Hobjs & _ & _).
  split; [exact Hrun | exact Hobjs].
Defined.

End CommittingRuns.

(* ===================================================================== *)
(** * Tracking the remote branches                                        *)
(* ===================================================================== *)

Section Localize.
Import Spec.
Implicit Types (self : Client.Client) (r : Repo).









End Localize.

(* ===================================================================== *)
(** * The branch of the master user                                       *)
(* ===================================================================== *)

Section UserBranch.
Import Spec.
Implicit Types (self : Client.Client) (r : Repo).

Lemma find_head_name n r b : find_head n r = Some b → name b = n ∧ b ∈ branches r.
Proof.
  unfold find_head. intros [Hin Hn]%find_some.
  split; [by apply String.eqb_eq | by apply list_elem_of_In].
Qed.

Lemma find_app_none {A} (f : A → bool) (l l' : list A) :
  List.find f l = None → List.find f (l ++ l') = List.find f l'.
Proof.
  induction l as [|a l IH]; simpl; [done|]. by destruct (f a).
Qed.



End UserBranch.

(* ===================================================================== *)
(** * Construction, case by case                                          *)
(* ===================================================================== *)

Section Cases.
Import Spec.
Implicit Types (self : Client.Client) (r : Repo) (w : World).

(** The checks that follow the attach, on a client whose repository is
    [r]: the stored hash, the bare test and the lock. *)
Lemma attach_checks self w r (m : M (Client.Client * World) unit) s0 :
  m s0 = (inr tt, (self, w)) →
  repo self = Some r →
  (m;;
   stored ← self_ _get_stored_hash;
   self ← gets fst;
   (if bool_decide (stored ≠ binary_hash self) then
      self_ (modify (set_connection_warnings
                       (connection_warnings self ++ [ConnectionWarnings.HASH_MISMATCH])))
    else mret tt);;
   bare_ ← self_ (on_repo (gets bare));
   (if (bare_ : bool) then raise AssertionError else mret tt);;
   self ← gets fst;
   let lock := repo_root self +:+ "/.git/binsync.lock" in
   self_ (modify (set_repo_lock (Some lock)));;
   beside_ (lock_acquire lock);;
   gets (λ s, repo s.1)) s0
  = match List.filter (λ ref, PyStr.endswith (name ref) BINSYNC_ROOT_BRANCH) (refs r) with
    | [] => (inl IndexError, (self, w))
    | branch :: _ =>
        match tree (commit branch) !! "binary_hash" with
        | None => (inl (KeyError "binary_hash"), (self, w))
        | Some blob =>
            let self1 := warned (PyStr.strip_nl blob) self in
            if bare r then (inl AssertionError, (self1, w))
            else if bool_decide (lock_path (repo_root self) ∈ locks w)
            then (inl (LockContention (lock_path (repo_root self))),
                  (set_repo_lock (Some (lock_path (repo_root self))) self1, w))
            else (inr (Some r),
                  (set_repo_lock (Some (lock_path (repo_root self))) self1,
                   mkWorld (disk w) (hosted w) ({[lock_path (repo_root self)]} ∪ locks w)))
        end
    end.
Proof.
  intros Hm Hr.
  erewrite bind_eq_inr by exact Hm.
  assert (Hsh : ∀ res,
    (r0 ← get;
     match List.filter (λ ref, PyStr.endswith (name ref) BINSYNC_ROOT_BRANCH) (refs r0) with
     | [] => raise IndexError
     | branch :: _ =>
         match read_blob (tree (commit branch)) "binary_hash" with
         | inl e => raise e
         | inr data => mret (PyStr.strip_nl data)
         end
     end) r = (res, r) →
    self_ _get_stored_hash (self, w) = (res, (self, w))).
  { intros res Hres. apply self_eq. unfold _get_stored_hash.
    rewrite <- (set_repo_same self r Hr) at 2. by apply (on_repo_eq _ self r). }
  destruct (List.filter _ (refs r)) as [|branch rest] eqn:Hf.
  { erewrite bind_eq_inl; [reflexivity|]. apply Hsh.
    erewrite bind_eq_inr by reflexivity. by rewrite Hf. }
  destruct (tree (commit branch) !! "binary_hash") as [blob|] eqn:Hblob.
  2:{ erewrite bind_eq_inl; [reflexivity|]. apply Hsh.
      erewrite bind_eq_inr by reflexivity. rewrite Hf. unfold read_blob. by rewrite Hblob. }
  erewrite bind_eq_inr.
  2:{ apply Hsh.
      erewrite bind_eq_inr by reflexivity. rewrite Hf. unfold read_blob. rewrite Hblob.
      reflexivity. }
  erewrite bind_eq_inr by reflexivity. cbn [fst]. cbv zeta. unfold warned, lock_path.
  assert (Hrest : ∀ self1, repo self1 = Some r → repo_root self1 = repo_root self →
    (bare_ ← self_ (on_repo (gets bare));
     (if (bare_ : bool) then raise AssertionError else mret tt);;
     self0 ← gets fst;
     self_ (modify (set_repo_lock (Some (repo_root self0 +:+ "/.git/binsync.lock"))));;
     beside_ (lock_acquire (repo_root self0 +:+ "/.git/binsync.lock"));;
     gets (λ s : Client.Client * World, repo s.1)) (self1, w)
    = if bare r then (inl AssertionError, (self1, w))
      else if bool_decide (repo_root self +:+ "/.git/binsync.lock" ∈ locks w)
      then (inl (LockContention (repo_root self +:+ "/.git/binsync.lock")),
            (set_repo_lock (Some (repo_root self +:+ "/.git/binsync.lock")) self1, w))
      else (inr (Some r),
            (set_repo_lock (Some (repo_root self +:+ "/.git/binsync.lock")) self1,
             mkWorld (disk w) (hosted w)
               ({[repo_root self +:+ "/.git/binsync.lock"]} ∪ locks w)))).
  { intros self1 Hr1 Hroot1.
    erewrite bind_eq_inr.
    2:{ apply self_eq. apply (on_repo_eq _ _ r); [done | reflexivity]. }
    rewrite (set_repo_same _ _ Hr1).
    destruct (bare r).
    { erewrite bind_eq_inl; reflexivity. }
    erewrite bind_eq_inr by reflexivity.
    erewrite bind_eq_inr by reflexivity. cbn [fst]. rewrite Hroot1.
    erewrite bind_eq_inr by (apply self_eq; reflexivity).
    case_bool_decide as Hlock.
    - erewrite bind_eq_inl; [done|]. apply beside_eq. unfold lock_acquire.
      by rewrite bool_decide_eq_true_2.
    - erewrite bind_eq_inr.
      2:{ apply beside_eq. unfold lock_acquire.
          rewrite bool_decide_eq_false_2 by done. reflexivity. }
      cbn [gets fst]. unfold gets. cbn [fst repo set_repo_lock]. by rewrite Hr1. }
  destruct (bool_decide (PyStr.strip_nl blob ≠ binary_hash self)).
  - erewrite bind_eq_inr by (apply self_eq; reflexivity).
    by apply Hrest.
  - erewrite bind_eq_inr by reflexivity. by apply Hrest.
Qed.




End Cases.

Section Outcomes.
Import Spec.
Implicit Types (self : Client.Client) (r : Repo) (w : World).


Lemma root_filter_nonempty r :
  has_root_branch r = true →
  List.filter (λ ref, PyStr.endswith (name ref) BINSYNC_ROOT_BRANCH) (refs r) ≠ [].
Proof.
  unfold has_root_branch. rewrite existsb_exists. intros (x & Hx & Hn) Hnil.
  apply filter_In in Hx as [Hx _]. apply String.eqb_eq in Hn.
  assert (Hin : In x (List.filter
    (λ ref, PyStr.endswith (name ref) BINSYNC_ROOT_BRANCH) (refs r))).
  { apply filter_In. split; [done|]. rewrite Hn. apply endswith_refl. }
  by rewrite Hnil in Hin.
Qed.





(** From the attach to the constructed object. *)
Lemma init_of_attach u root h rem ci (init : bool) url pid sock now w :
  ¬ (ends_with_separator u ∨ mentions_root u) →
  __init__ u root h rem ci init url pid sock now w
  = match _get_or_init_binsync_repo url init now (newborn u root h rem ci pid sock, w) with
    | (inl e, (_, w')) => (inl e, w')
    | (inr ro, (s, w')) =>
        match _get_or_init_user_branch
                (set_scheduler (start_worker_thread (scheduler s)) (set_repo ro s)) with
        | (inl e, _) => (inl e, w')
        | (inr _, s') => (inr s', w')
        end
    end.
Proof.
  intros Hok.
  assert (Hguard : PyStr.endswith u "/" || PyStr.contains "__root__" u = false).
  { apply not_true_is_false. by rewrite username_guard. }
  unfold __init__. rewrite Hguard. fold (newborn u root h rem ci pid sock).
  erewrite bind_eq_inr by reflexivity.
  destruct (_get_or_init_binsync_repo url init now _) as [[e|ro] [s w']] eqn:Hattach.
  - erewrite bind_eq_inl by exact Hattach. reflexivity.
  - erewrite bind_eq_inr by exact Hattach.
    erewrite bind_eq_inr by (apply self_eq; reflexivity).
    erewrite bind_eq_inr by (apply self_eq; reflexivity).
    unfold self_, zoom. cbn [fst snd].
    by destruct (_get_or_init_user_branch _) as [[e|[]] s'].
Qed.

End Outcomes.

Section ConstructionCases.
Import Spec.
Implicit Types (self : Client.Client) (r : Repo) (w : World).











End ConstructionCases.

Section FreshConstruction.
Import Spec.
Implicit Types (self : Client.Client) (r : Repo) (w : World).





End FreshConstruction.

Section CloneRoot.
Import Spec.
Implicit Types (self : Client.Client) (w : World).

Lemma contains_cons sub c s :
  PyStr.contains sub s = true → PyStr.contains sub (String c s) = true.
Proof.
  intros Hs. rewrite contains_unfold. by destruct (String.prefix sub (String c s)).
Qed.

Lemma contains_head c s : PyStr.contains (String c EmptyString) (String c s) = true.
Proof.
  rewrite contains_unfold. simpl. destruct (ascii_dec c c); [|done]. by destruct s.
Qed.

Lemma dotstar_git_contains s g :
  PyStr.dotstar_git s = Some g → PyStr.contains ".git" s = true.
Proof.
  revert g. induction s as [|c s IH]; intros g; [done|].
  cbn [PyStr.dotstar_git].
  destruct (if Ascii.eqb c PyStr.nl then None else PyStr.dotstar_git s) as [g'|] eqn:Hin.
  - intros _. apply contains_cons. destruct (Ascii.eqb c PyStr.nl); [done|].
    by apply (IH g').
  - destruct (String.prefix ".git" (String c s)) eqn:Hp; [|done].
    intros _. rewrite contains_unfold. by rewrite Hp.
Qed.

(** The pattern needs a slash and, after it, the text [.git]. *)
Lemma findall_slash_git_needs s g :
  PyStr.findall_slash_git_0 s = Some g →
  PyStr.contains "/" s = true ∧ PyStr.contains ".git" s = true.
Proof.
  induction s as [|c s IH]; [done|]. cbn [PyStr.findall_slash_git_0].
  destruct (Ascii.eqb_spec c PyStr.slash) as [->|Hne].
  - destruct (PyStr.dotstar_git s) as [g'|] eqn:Hd.
    + intros _. split; [apply contains_head|]. apply contains_cons.
      by apply (dotstar_git_contains s g').
    + intros Hs. destruct (IH Hs). split; by apply contains_cons.
  - intros Hs. destruct (IH Hs). split; by apply contains_cons.
Qed.

(** X13: with a URL and an empty [repo_root], the directory to clone
    into is read off the URL with a pattern that needs a slash and,
    after it, the text [.git]; for a non-empty URL without a slash or
    without [.git] the construction fails with the IndexError of the
    subscript, before anything is cloned or written. *)
Theorem init_url_without_root_name u h rem ci init url pid sock now w :
  ¬ (ends_with_separator u ∨ mentions_root u) →
  url ≠ EmptyString →
  PyStr.contains "/" url = false ∨ PyStr.contains ".git" url = false →
  PyStr.findall_slash_git_0 url = None
  ∧ __init__ u EmptyString h rem ci init (Some url) pid sock now w = (inl IndexError, w).
Proof.
  intros Hok Hurl Hno.
  assert (Hfind : PyStr.findall_slash_git_0 url = None).
  { destruct (PyStr.findall_slash_git_0 url) as [g|] eqn:Hf; [|done].
    destruct (findall_slash_git_needs url g Hf) as [H1 H2].
    destruct Hno; congruence. }
  split; [done|].
  assert (Hrun : _get_or_init_binsync_repo (Some url) init now
                   (newborn u EmptyString h rem ci pid sock, w)
                 = (inl IndexError, (newborn u EmptyString h rem ci pid sock, w))).
  { unfold _get_or_init_binsync_repo.
    assert (Ht : truthy (Some url) = true).
    { cbn [truthy]. by destruct (String.eqb_spec url EmptyString). }
    rewrite Ht. cbn [default]. cbv zeta.
    erewrite bind_eq_inl; [reflexivity|].
    erewrite bind_eq_inr by reflexivity. cbn [fst repo_root newborn]. unfold id.
    rewrite String.eqb_refl, Hfind. erewrite bind_eq_inl; reflexivity. }
  rewrite init_of_attach by done. by rewrite Hrun.
Qed.

End CloneRoot.

(* ===================================================================== *)
(** * Listing the files of a tree                                         *)
(* ===================================================================== *)

Section Listing.
Import Spec Scenario.

Lemma files_of_eq t : files_of t = blobs t ++ files_of_stack (trees t).
Proof.
  by destruct t.
Qed.

Lemma tree_count_eq t : tree_count t = S (stack_count (trees t)).
Proof.
  by destruct t.
Qed.

Lemma files_of_stack_app l1 l2 :
  files_of_stack (l1 ++ l2) = files_of_stack l2 ++ files_of_stack l1.
Proof.
  induction l1 as [|t l1 IH]; simpl.
  - by rewrite app_nil_r.
  - by rewrite IH, app_assoc.
Qed.

Lemma stack_count_app l1 l2 : stack_count (l1 ++ l2) = stack_count l1 + stack_count l2.
Proof. induction l1 as [|t l1 IH]; simpl; [done|]. rewrite IH. lia. Qed.

Lemma removelast_snoc {A} (l : list A) x : removelast (l ++ [x]) = l.
Proof. rewrite removelast_app by done. simpl. apply app_nil_r. Qed.

(** The loop, for a stack and a list built so far: with as many turns
    allowed as there are trees below the stack, it ends, and appends
    the files of the stack from its top down. *)
Lemma list_files_loop_spec fuel stack file_list :
  (stack_count stack ≤ fuel)%nat →
  list_files_loop fuel stack file_list = Some (file_list ++ files_of_stack stack).
Proof.
  revert stack file_list. induction fuel as [|fuel IH]; intros stack file_list Hfuel.
  - destruct stack as [|t stack] using rev_ind.
    + simpl. by rewrite app_nil_r.
    + rewrite stack_count_app in Hfuel. simpl in Hfuel. rewrite tree_count_eq in Hfuel. lia.
  - destruct stack as [|t stack _] using rev_ind.
    + simpl. by rewrite app_nil_r.
    + cbn [list_files_loop]. rewrite last_snoc, removelast_snoc.
      rewrite IH.
      * f_equal. rewrite !files_of_stack_app. cbn [files_of_stack fold_right app].
        rewrite files_of_eq. by rewrite <- !app_assoc.
      * rewrite stack_count_app in *. simpl in Hfuel. rewrite tree_count_eq in Hfuel. lia.
Qed.

Lemma all_files_eq t :
  all_files t = blobs t ++ concat (all_files <$> trees t).
Proof.
  destruct t as [bs ts]. cbn [all_files blobs trees]. f_equal.
  induction ts as [|t' ts IH]; [done|]. rewrite fmap_cons. cbn [concat].
  by rewrite IH.
Qed.

Lemma files_of_stack_perm l :
  (∀ t, t ∈ l → files_of t ≡ₚ all_files t) →
  files_of_stack l ≡ₚ concat (all_files <$> l).
Proof.
  induction l as [|t l IH]; intros Hl; [done|].
  rewrite fmap_cons. cbn [files_of_stack fold_right concat].
  rewrite Permutation_app_comm. apply Permutation_app.
  - apply Hl. by left.
  - apply IH. intros t' Ht'. apply Hl. by right.
Qed.

Lemma stack_count_elem l t : t ∈ l → (tree_count t ≤ stack_count l)%nat.
Proof.
  induction l as [|t' l IH]; [by intros ?%elem_of_nil|].
  intros [->|Ht]%elem_of_cons; simpl; [lia|]. specialize (IH Ht). lia.
Qed.

(** The walk lists every file of the tree, as often as it occurs. *)
Lemma files_of_perm n t : (tree_count t ≤ n)%nat → files_of t ≡ₚ all_files t.
Proof.
  revert t. induction n as [|n IH]; intros t Hn.
  - rewrite tree_count_eq in Hn. lia.
  - rewrite files_of_eq, all_files_eq. apply Permutation_app; [done|].
    apply files_of_stack_perm. intros t' Ht'. apply IH.
    rewrite tree_count_eq in Hn. apply stack_count_elem in Ht'. lia.
Qed.

(** X14: given as many turns as the tree has trees, the walk of
    [list_files_in_tree] ends. Its result is the paths of the blobs of
    the tree followed by the files of the subtrees, the last subtree
    first and each listed in the same way; so it holds the path of
    every blob at every depth, as often as it occurs, and nothing
    else. *)
Theorem list_files_in_tree_lists_all fuel t :
  (tree_count t ≤ fuel)%nat →
  list_files_in_tree fuel t = Some (files_of t)
  ∧ files_of t = blobs t ++ files_of_stack (trees t)
  ∧ files_of t ≡ₚ all_files t
  ∧ length (files_of t) = length (all_files t).
Proof.
  intros Hfuel.
  assert (Hperm : files_of t ≡ₚ all_files t) by (by apply (files_of_perm (tree_count t))).
  split; [|split; [apply files_of_eq|split; [done|by rewrite Hperm]]].
  unfold list_files_in_tree. rewrite list_files_loop_spec.
  - simpl. reflexivity.
  - simpl. lia.
Qed.

Lemma list_files_in_tree_lists_all_witness :
  (tree_count sample_tree ≤ 4)%nat
  ∧ list_files_in_tree 4 sample_tree
    = Some [ "metadata.toml"; "comments/1.toml"; "functions/401000.toml";
             "functions/401100.toml"; "functions/old/400000.toml" ].
Proof.
  assert (Hfuel : (tree_count sample_tree ≤ 4)%nat) by (simpl; lia).
  split; [exact Hfuel|].
  exact (proj1 (list_files_in_tree_lists_all 4 sample_tree Hfuel)).
Defined.

End Listing.

(* ===================================================================== *)
(** * The remote, the files of the index, and closing                     *)
(* ===================================================================== *)

Section Remote.
Context {H : Host}.
Import Spec.
Implicit Types (self : Client.Client) (r : Repo).

(** X15: [has_remote] is never answered from the cache and stores
    nothing in it: every read hands one job to the scheduler, with the
    lowest priority since the wrapper is given no keyword. With a
    repository attached the answer is [active_remote] if the
    configured remote has a non-empty name that is among the remotes of
    the repository, and False otherwise; with an empty remote name the
    answer is False and the repository is not even looked at. *)
Theorem has_remote_always_scheduled self :
  submitted (scheduler (logged has_remote_m (mkKwargs None None None None) self))
    = submitted (scheduler self) ++ [(has_remote_m, SLOW)]
  ∧ cache (logged has_remote_m (mkKwargs None None None None) self) = cache self
  ∧ (remote self = EmptyString →
       has_remote (self, tt)
       = (inr (VBool false), (logged has_remote_m (mkKwargs None None None None) self, tt)))
  ∧ (∀ r, repo self = Some r →
       has_remote (self, tt)
       = (inr (VBool (negb (String.eqb (remote self) EmptyString)
                      && bool_decide (remote self ∈ remotes r)
                      && active_remote self)),
          (logged has_remote_m (mkKwargs None None None None) self, tt))).
Proof.
  split; [reflexivity|]. split; [reflexivity|].
  assert (Hmiss : misses has_remote_m (mkKwargs None None None None) self) by (by right).
  split.
  - intros Hrem. unfold has_remote. rewrite atomic_miss by done.
    assert (Hbody : has_remote_f (logged has_remote_m (mkKwargs None None None None) self)
      = (inr (VBool false), logged has_remote_m (mkKwargs None None None None) self)).
    { unfold has_remote_f. erewrite bind_eq_inr by reflexivity.
      cbn [remote logged set_scheduler]. by rewrite Hrem. }
    by rewrite (self_eq _ _ _ _ _ Hbody).
  - intros r Hr. unfold has_remote. rewrite atomic_miss by done.
    assert (Hex : existsb (λ n, String.eqb n (remote self)) (remotes r)
                  = bool_decide (remote self ∈ remotes r)).
    { induction (remotes r) as [|n l IH]; [reflexivity|]. cbn [existsb]. rewrite IH.
      destruct (String.eqb_spec n (remote self)) as [->|Hne]; cbn [orb].
      - symmetry. apply bool_decide_eq_true_2. by left.
      - apply bool_decide_ext. rewrite elem_of_cons.
        split; [intros Hin; by right | intros [Heq|Hin]; [congruence | done]]. }
    assert (Hbody : has_remote_f (logged has_remote_m (mkKwargs None None None None) self)
      = (inr (VBool (negb (String.eqb (remote self) EmptyString)
                     && bool_decide (remote self ∈ remotes r)
                     && active_remote self)),
         logged has_remote_m (mkKwargs None None None None) self)).
    { unfold has_remote_f. erewrite bind_eq_inr by reflexivity.
      cbn [remote repo active_remote logged set_scheduler]. rewrite Hr, Hex.
      destruct (String.eqb (remote self) EmptyString); [reflexivity|]. cbn [negb andb].
      by destruct (bool_decide _). }
    by rewrite (self_eq _ _ _ _ _ Hbody).
Qed.


(** X17: [close] detaches the repository and touches nothing else: the
    cache keeps what it held, so a cached answer is still served. Every
    body that reads the repository then fails with AttributeError and
    changes nothing, a second [close] included; the State handed to
    [commit_state] keeps its dirty flag. *)
Theorem close_detaches self r :
  repo self = Some r →
  close self = (inr tt, set_repo None self)
  ∧ cache (set_repo None self) = cache self
  ∧ (∀ op kw, _check_cache_ op kw (set_repo None self) = _check_cache_ op kw self)
  ∧ (∃ a, close (set_repo None self) = (inl (AttributeError a), set_repo None self))
  ∧ (∀ u version, ∃ a, get_state_f u version (set_repo None self)
                       = (inl (AttributeError a), set_repo None self))
  ∧ (∃ a, users_f (set_repo None self) = (inl (AttributeError a), set_repo None self))
  ∧ (∀ state msg now, user state = master_user self →
       ∃ a, commit_state_f msg now (set_repo None self, state)
            = (inl (AttributeError a), (set_repo None self, state))).
Proof.
  intros Hr. split.
  { unfold close. erewrite bind_eq_inr.
    2:{ apply (on_repo_eq _ self r); [done | reflexivity]. }
    reflexivity. }
  split; [reflexivity|]. split; [by intros [] kw|].
  split; [by eexists|]. split; [intros u version; by eexists|].
  split; [by eexists|].
  intros state msg now Hu. eexists. unfold commit_state_f.
  erewrite bind_eq_inr by reflexivity.
  erewrite bind_eq_inr by reflexivity. cbn [fst snd master_user set_repo].
  rewrite bool_decide_eq_false_2 by (intros Hne; by apply Hne).
  erewrite bind_eq_inl; reflexivity.
Qed.

End Remote.

(* ===================================================================== *)
(** * Finding the authentication agent                                    *)
(* ===================================================================== *)

Section Agent.
Import Spec Scenario.

Example discover_ssh_agent_ex :
  discover_ssh_agent 0 agent_output EmptyString
    = inr (Some 4242%Z, Some "/tmp/ssh-XX/agent.4241")
  ∧ discover_ssh_agent 0 found_output EmptyString
    = inr (Some 4242%Z, Some "/tmp/ssh-XX/agent.4241")
  ∧ discover_ssh_agent 0 "SSH_AGENT_PID=4242; export SSH_AGENT_PID;" EmptyString
    = inr (None, None)
  ∧ discover_ssh_agent 0 "Found ssh-agent at 4242" EmptyString = inr (None, None).
Proof. repeat split; vm_compute; reflexivity. Qed.

Lemma search_unfold pre group s :
  PyStr.search pre group s
  = match (if String.prefix pre s
           then group (PyStr.drop (String.length pre) s) else None) with
    | Some g => Some g
    | None =>
        match s with
        | EmptyString => None
        | String _ s' => PyStr.search pre group s'
        end
    end.
Proof. by destruct s. Qed.

Lemma search_inv pre group s g :
  PyStr.search pre group s = Some g → ∃ rest, group rest = Some g.
Proof.
  induction s as [|c s IH]; rewrite search_unfold.
  - destruct (String.prefix pre EmptyString); [|done].
    destruct (group _) eqn:Hg; [|done]. intros [= <-]. eauto.
  - destruct (String.prefix pre (String c s)).
    + destruct (group _) eqn:Hg; [intros [= <-]; eauto | exact IH].
    + exact IH.
Qed.

Lemma search_none pre group s :
  PyStr.contains pre s = false → PyStr.search pre group s = None.
Proof.
  induction s as [|c s IH]; rewrite contains_unfold, search_unfold.
  - by destruct (String.prefix pre EmptyString).
  - destruct (String.prefix pre (String c s)); [done|]. exact IH.
Qed.

Lemma span_all p s :
  Forall (λ c, p c = true) (String.list_ascii_of_string (PyStr.span p s)).
Proof.
  induction s as [|c s IH]; simpl; [constructor|].
  destruct (p c) eqn:Hp; simpl; [by constructor | constructor].
Qed.

Lemma digits_all s g :
  PyStr.digits s = Some g →
  Forall (λ c, PyStr.is_digit c = true) (String.list_ascii_of_string g).
Proof.
  unfold PyStr.digits. pose proof (span_all PyStr.is_digit s) as Hall.
  destruct (PyStr.span PyStr.is_digit s); [done|]. by intros [= <-].
Qed.

Lemma digits_semicolon_all s g :
  PyStr.digits_semicolon s = Some g →
  Forall (λ c, PyStr.is_digit c = true) (String.list_ascii_of_string g).
Proof.
  unfold PyStr.digits_semicolon. destruct (PyStr.digits s) as [g'|] eqn:Hd; [|done].
  destruct (String.prefix _ _); [|done]. intros [= <-]. by apply (digits_all s).
Qed.

(** The integer read off a text of digits is not negative. *)
Lemma int_nonneg g :
  Forall (λ c, PyStr.is_digit c = true) (String.list_ascii_of_string g) →
  (0 ≤ PyStr.int g)%Z.
Proof.
  assert (Hgen : ∀ l acc, Forall (λ c, PyStr.is_digit c = true) l → (0 ≤ acc)%Z →
    (0 ≤ fold_left (λ acc c, 10 * acc + (Z.of_nat (nat_of_ascii c) - 48)) l acc)%Z).
  { induction l as [|c l IH]; intros acc Hall Hacc; simpl; [done|].
    apply Forall_cons in Hall as [Hc Hall]. apply IH; [done|].
    unfold PyStr.is_digit in Hc. apply andb_true_iff in Hc as [Hlo _].
    apply Nat.leb_le in Hlo. lia. }
  intros Hall. unfold PyStr.int. by apply Hgen.
Qed.

Lemma non_spaces_no_newline rest g :
  PyStr.non_spaces rest = Some g → PyStr.nl ∉ String.list_ascii_of_string g.
Proof.
  unfold PyStr.non_spaces. intros Hg Hin.
  pose proof (span_all (λ c, negb (PyStr.is_space c)) rest) as Hall.
  destruct (PyStr.span _ rest) as [|c t] eqn:Hs; [done|]. injection Hg as <-.
  rewrite Forall_forall in Hall. specialize (Hall _ Hin). done.
Qed.

Lemma lazy_semicolon_no_newline rest g :
  PyStr.lazy_semicolon rest = Some g → PyStr.nl ∉ String.list_ascii_of_string g.
Proof.
  revert g. induction rest as [|c rest IH]; intros g; simpl; [done|].
  destruct (Ascii.eqb c ";"); [intros [= <-]; apply not_elem_of_nil|].
  destruct (Ascii.eqb_spec c PyStr.nl) as [->|Hne]; [done|].
  destruct (PyStr.lazy_semicolon rest) as [g'|]; [|done]. intros [= <-]. simpl.
  rewrite not_elem_of_cons. split; [congruence | by apply IH].
Qed.

(** X18: [discover_ssh_agent] raises when the command failed or wrote
    to its error stream. Otherwise it returns a pair that is either
    (None, None) or a process id with a socket path: the process id is
    never negative and the path never holds a newline. It returns
    (None, None) whenever the output has neither of the two markers of
    a process id, and also when a marker is there but the socket of
    the same format is not: the two formats are never mixed. *)
Theorem discover_ssh_agent_answers returncode stdout stderr :
  (returncode ≠ 0%Z ∨ stderr ≠ EmptyString →
     discover_ssh_agent returncode stdout stderr
     = inl (OtherError "RuntimeError: Failed to discover SSH agent"))
  ∧ (returncode = 0%Z → stderr = EmptyString →
     (discover_ssh_agent returncode stdout stderr = inr (None, None)
      ∨ ∃ pid sock,
          discover_ssh_agent returncode stdout stderr = inr (Some pid, Some sock)
          ∧ (0 ≤ pid)%Z
          ∧ PyStr.nl ∉ String.list_ascii_of_string sock)
     ∧ (PyStr.contains "Found ssh-agent at " stdout = false →
        PyStr.contains "SSH_AGENT_PID=" stdout = false →
        discover_ssh_agent returncode stdout stderr = inr (None, None))
     ∧ (PyStr.contains "Found ssh-agent at " stdout = false →
        PyStr.contains "SSH_AUTH_SOCK=" stdout = false →
        discover_ssh_agent returncode stdout stderr = inr (None, None))
     ∧ (is_Some (PyStr.search "Found ssh-agent at " PyStr.digits stdout) →
        PyStr.contains "Found ssh-agent socket at " stdout = false →
        discover_ssh_agent returncode stdout stderr = inr (None, None))).
Proof.
  unfold discover_ssh_agent. split.
  - intros Hfail.
    destruct (Z.eqb_spec returncode 0) as [Hz|Hz]; [|reflexivity].
    destruct (String.eqb_spec stderr EmptyString) as [He|He]; [|reflexivity].
    by destruct Hfail.
  - intros -> ->. cbn [Z.eqb negb orb String.eqb].
    split; [|split; [|split]].
    + destruct (PyStr.search "Found ssh-agent at " _ _) as [g|] eqn:Hpid.
      * destruct (PyStr.search "Found ssh-agent socket at " _ _) as [sock|] eqn:Hsock;
          [|by left].
        right. eexists _, sock. split; [reflexivity|].
        apply search_inv in Hpid as [rest Hpid]. apply search_inv in Hsock as [rest' Hsock].
        split; [by apply int_nonneg, (digits_all rest) | by apply (non_spaces_no_newline rest')].
      * destruct (PyStr.search "SSH_AGENT_PID=" _ _) as [g|] eqn:Hpid2; [|by left].
        destruct (PyStr.search "SSH_AUTH_SOCK=" _ _) as [sock|] eqn:Hsock; [|by left].
        right. eexists _, sock. split; [reflexivity|].
        apply search_inv in Hpid2 as [rest Hpid2]. apply search_inv in Hsock as [rest' Hsock].
        split; [by apply int_nonneg, (digits_semicolon_all rest)
               | by apply (lazy_semicolon_no_newline rest')].
    + intros H1 H2. by rewrite !search_none.
    + intros H1 H2. rewrite (search_none _ _ _ H1), (search_none _ _ _ H2).
      by destruct (PyStr.search _ _ _).
    + intros [g Hg] H2. rewrite Hg. by rewrite search_none.
Qed.

End Agent.

(* ===================================================================== *)
(** * Bypassing the cache                                                 *)
(* ===================================================================== *)

Section Bypass.
Context {X : Type}.
Import Spec.

(** X19: a call with [no_cache] set never looks at the cache: the job
    goes to the scheduler, with the priority given or the lowest one,
    even when a value is stored. The cache is written all the same:
    for a cacheable operation the value the job returns replaces what
    was stored and is what the next lookup finds; a job that raises
    leaves the stored value alone. *)
Theorem atomic_no_cache_refreshes op (f : kwargs → M (Client.Client * X) value)
    kw self (x : X) :
  kw_no_cache kw = Some true →
  submitted (scheduler (logged op kw self))
    = submitted (scheduler self) ++ [(op, default SLOW (kw_priority kw))]
  ∧ (∀ v self' x', f kw (logged op kw self, x) = (inr v, (self', x')) →
       atomic_git_action op f kw (self, x) = (inr v, ((_set_cache op v kw self').2, x'))
       ∧ (cacheable op → _check_cache_ op kw (_set_cache op v kw self').2 = v))
  ∧ (∀ e self' x', f kw (logged op kw self, x) = (inl e, (self', x')) →
       atomic_git_action op f kw (self, x) = (inl e, (self', x'))).
Proof.
  intros Hnc. split; [reflexivity|].
  assert (Hmiss : misses op kw self) by (left; by rewrite Hnc).
  split.
  - intros v self' x' Hf. split; [|by apply set_cache_read_back].
    rewrite atomic_miss by done. by rewrite Hf.
  - intros e self' x' Hf. rewrite atomic_miss by done. by rewrite Hf.
Qed.

End Bypass.

(* ===================================================================== *)
(** * More runs on the small repository                                   *)
(* ===================================================================== *)

Section MoreRuns.
Import Spec Scenario.

Lemma commits_for_users_keep_root_witness :
  ∃ best,
    _get_best_refs alice (repository "aa") = inr best
    ∧ PyDict.mem BINSYNC_ROOT_BRANCH best = false
    ∧ _get_commits_for_users alice (repository "aa")
      = inr [("__root__", 0); ("alice", 0); ("bob", 0)].
Proof.
  destruct (commits_for_users_keep_root alice (repository "aa"))
    as (best & Hbest & _ & Hmem & Hrun & _).
  exists best. split; [exact Hbest|]. split; [exact Hmem|].
  vm_compute. reflexivity.
Defined.

Lemma atomic_no_cache_refreshes_witness :
  kw_no_cache (mkKwargs None None None (Some true)) = Some true
  ∧ _check_cache_ get_state_m (mkKwargs None None None (Some true)) alice_cached
    = VState cached_state
  ∧ get_state (H:=host) (mkKwargs None None None (Some true)) (alice_cached, tt)
    = (inr (VState (mkState "alice" false [])),
       ((_set_cache get_state_m (VState (mkState "alice" false []))
           (mkKwargs None None None (Some true))
           (logged get_state_m (mkKwargs None None None (Some true)) alice_cached)).2,
        tt)).
Proof.
  split; [reflexivity|]. split; [reflexivity|].
  destruct (atomic_no_cache_refreshes (X:=unit) get_state_m
              (λ kw, self_ (get_state_f (H:=host) (kw_user kw) (kw_version kw)))
              (mkKwargs None None None (Some true)) alice_cached tt eq_refl)
    as (_ & Hret & _).
  apply (Hret (VState (mkState "alice" false [])) _ tt). vm_compute. reflexivity.
Defined.








Lemma init_url_without_root_name_witness :
  ¬ (ends_with_separator "alice" ∨ mentions_root "alice")
  ∧ PyStr.contains "/" "git@host:repo.git" = false
  ∧ __init__ "alice" EmptyString "aa" "origin" 10 false (Some "git@host:repo.git")
      None None 0 hosting_world = (inl IndexError, hosting_world).
Proof.
  assert (Hok : ¬ (ends_with_separator "alice" ∨ mentions_root "alice")).
  { apply username_fit. reflexivity. }
  assert (Hurl : "git@host:repo.git" ≠ EmptyString) by discriminate.
  split; [exact Hok|]. split; [reflexivity|].
  exact (proj2 (init_url_without_root_name "alice" "aa" "origin" 10 false
                  "git@host:repo.git" None None 0 hosting_world Hok
                  Hurl (or_introl eq_refl))).
Defined.

Lemma has_remote_always_scheduled_witness :
  repo alice = Some (repository "aa")
  ∧ has_remote (alice, tt)
    = (inr (VBool true), (logged has_remote_m no_kwargs alice, tt))
  ∧ remote (set_repo None alice) = "origin".
Proof.
  split; [reflexivity|]. split; [|reflexivity].
  destruct (has_remote_always_scheduled alice) as (_ & _ & _ & Hrepo).
  exact (Hrepo (repository "aa") eq_refl).
Defined.


Lemma close_detaches_witness :
  repo alice_cached = Some (repository "aa")
  ∧ close alice_cached = (inr tt, set_repo None alice_cached)
  ∧ _check_cache_ get_state_m no_kwargs (set_repo None alice_cached) = VState cached_state
  ∧ ∃ a, users_f (H:=host) (set_repo None alice_cached)
         = (inl (AttributeError a), set_repo None alice_cached).
Proof.
  split; [reflexivity|].
  destruct (close_detaches (H:=host) alice_cached (repository "aa") eq_refl)
    as (Hclose & _ & Hcache & _ & _ & Husers & _).
  split; [exact Hclose|]. split; [|exact Husers].
  rewrite Hcache. reflexivity.
Defined.

Lemma discover_ssh_agent_answers_witness :
  discover_ssh_agent 1 agent_output EmptyString
    = inl (OtherError "RuntimeError: Failed to discover SSH agent")
  ∧ PyStr.contains "Found ssh-agent at " "Agent pid 4242" = false
  ∧ PyStr.contains "SSH_AGENT_PID=" "Agent pid 4242" = false
  ∧ discover_ssh_agent 0 "Agent pid 4242" EmptyString = inr (None, None).
Proof.
  assert (Hcode : 1%Z ≠ 0%Z) by lia.
  split.
  - exact (proj1 (discover_ssh_agent_answers 1 agent_output EmptyString)
             (or_introl Hcode)).
  - split; [reflexivity|]. split; [reflexivity|].
    destruct (proj2 (discover_ssh_agent_answers 0 "Agent pid 4242" EmptyString)
                eq_refl eq_refl) as (_ & Hnone & _).
    exact (Hnone eq_refl eq_refl).
Defined.

End MoreRuns.

(* ===================================================================== *)
(** * Construction from a URL                                             *)
(* ===================================================================== *)

Section FromURL.
Import Spec.
Implicit Types (self : Client.Client) (r src : Repo) (w : World).

Lemma create_head_root rev r b r' :
  create_head BINSYNC_ROOT_BRANCH rev r = (inr b, r') → has_root_branch r' = true.
Proof.
  unfold create_head, has_root_branch. destruct (rev_parse rev r) as [c|]; [|done].
  destruct (find_head BINSYNC_ROOT_BRANCH r) as [b0|] eqn:Hb0.
  - destruct (decide (commit b0 = c)); [|done]. intros [= <- <-].
    apply existsb_exists. apply find_some in Hb0. by exists b0.
  - intros [= <- <-]. apply existsb_exists.
    exists (mkRef BINSYNC_ROOT_BRANCH Head c). split; [|apply String.eqb_refl].
    unfold branches. cbn [refs set_refs]. apply filter_In.
    split; [apply in_or_app; right; by left | reflexivity].
Qed.

(** The attach from a URL, with a directory given: the clone, the
    head check of [clone], and the checks of the attach. *)
Lemma attach_url_cloned self w url src now :
  url ≠ EmptyString →
  repo_root self ≠ EmptyString →
  hosted w !! url = Some src →
  disk w !! repo_root self = None →
  _get_or_init_binsync_repo (Some url) false now (self, w)
  = match create_head BINSYNC_ROOT_BRANCH (remote self +:+ "/" +:+ BINSYNC_ROOT_BRANCH)
            (cloned src) with
    | (inl e, _) =>
        (inl (if bool_decide (e = BadName) then NotABinsyncRepo else e),
         (self, mkWorld (<[repo_root self := cloned src]> (disk w)) (hosted w) (locks w)))
    | (inr _, r') =>
        attach_outcome (set_repo (Some r') self)
          (mkWorld (<[repo_root self := cloned src]> (disk w)) (hosted w) (locks w)) r'
    end.
Proof.
  intros Hurl Hroot Hhosted Hdisk.
  set (w1 := mkWorld (<[repo_root self := cloned src]> (disk w)) (hosted w) (locks w)).
  assert (Ht : truthy (Some url) = true).
  { cbn [truthy]. by destruct (String.eqb_spec url EmptyString). }
  assert (Hne : String.eqb (repo_root self) EmptyString = false).
  { by destruct (String.eqb_spec (repo_root self) EmptyString). }
  assert (Hclone_from : beside_ (clone_from url (repo_root self) (ssh_agent_env self)) (self, w)
                        = (inr (cloned src), (self, w1))).
  { apply beside_eq. unfold clone_from. by rewrite Hhosted, Hdisk. }
  unfold _get_or_init_binsync_repo. rewrite Ht. cbn [default]. cbv zeta. unfold id.
  destruct (create_head BINSYNC_ROOT_BRANCH (remote self +:+ "/" +:+ BINSYNC_ROOT_BRANCH)
              (cloned src)) as [[e|b] r'] eqn:Hhead.
  - erewrite bind_eq_inl; [reflexivity|].
    erewrite bind_eq_inr by reflexivity. cbn [fst]. rewrite Hne.
    erewrite bind_eq_inr by reflexivity.
    erewrite bind_eq_inl; [reflexivity|].
    unfold clone.
    erewrite bind_eq_inr by reflexivity. cbn [fst]. cbv zeta.
    erewrite bind_eq_inr by exact Hclone_from.
    unfold try_except. rewrite Hhead.
    by destruct (bool_decide (e = BadName)).
  - assert (Hblock :
      (self0 ← gets fst;
       (if String.eqb (repo_root self0) EmptyString then
          match PyStr.findall_slash_git_0 url with
          | None => raise IndexError
          | Some root => self_ (modify (set_repo_root root))
          end
        else mret tt);;
       r ← clone url false;
       self_ (modify (set_repo (Some r)));;
       (if false then
          if has_root_branch r then raise RootAlreadyExists
          else self_ (_setup_repo now)
        else mret tt)) (self, w)
      = (inr tt, (set_repo (Some r') self, w1))).
    { erewrite bind_eq_inr by reflexivity. cbn [fst]. rewrite Hne.
      erewrite bind_eq_inr by reflexivity.
      erewrite bind_eq_inr.
      2:{ unfold clone.
          erewrite bind_eq_inr by reflexivity. cbn [fst]. cbv zeta.
          erewrite bind_eq_inr by exact Hclone_from.
          unfold try_except. rewrite Hhead. reflexivity. }
      erewrite bind_eq_inr by (apply self_eq; reflexivity).
      reflexivity. }
    etrans; [exact (attach_checks (set_repo (Some r') self) w1 r' _ _ Hblock eq_refl)|].
    unfold attach_outcome, stored_blob.
    pose proof (root_filter_nonempty r' (create_head_root _ _ _ _ Hhead)) as Hnonempty.
    by destruct (List.filter _ (refs r')).
Qed.

(** A clone into a directory that is there, or from a URL that hosts
    nothing, fails before anything is written. *)
Lemma attach_url_refused self w url (init : bool) now :
  url ≠ EmptyString →
  repo_root self ≠ EmptyString →
  hosted w !! url = None ∨ is_Some (disk w !! repo_root self) →
  _get_or_init_binsync_repo (Some url) init now (self, w) = (inl GitCommandError, (self, w)).
Proof.
  intros Hurl Hroot Hno.
  assert (Ht : truthy (Some url) = true).
  { cbn [truthy]. by destruct (String.eqb_spec url EmptyString). }
  assert (Hne : String.eqb (repo_root self) EmptyString = false).
  { by destruct (String.eqb_spec (repo_root self) EmptyString). }
  assert (Hclone_from : beside_ (clone_from url (repo_root self) (ssh_agent_env self)) (self, w)
                        = (inl GitCommandError, (self, w))).
  { apply beside_eq. unfold clone_from.
    destruct Hno as [-> | [r0 ->]]; [done|]. by destruct (hosted w !! url). }
  unfold _get_or_init_binsync_repo. rewrite Ht. cbn [default]. cbv zeta. unfold id.
  erewrite bind_eq_inl; [reflexivity|].
  erewrite bind_eq_inr by reflexivity. cbn [fst]. rewrite Hne.
  erewrite bind_eq_inr by reflexivity.
  erewrite bind_eq_inl; [reflexivity|].
  unfold clone.
  erewrite bind_eq_inr by reflexivity. cbn [fst]. cbv zeta.
  erewrite bind_eq_inl by exact Hclone_from. reflexivity.
Qed.

Lemma origin_name_inj x y : "origin/" +:+ x = "origin/" +:+ y → x = y.
Proof. rewrite !app_String, !app_Empty. by intros [= ->]. Qed.

(** The remote references of a clone, looked up by name. *)
Lemma find_origin_ref n (l : list Reference) :
  List.find (λ x, String.eqb (name x) ("origin/" +:+ n))
    ((λ b, mkRef ("origin/" +:+ name b) (RemoteReference "origin") (commit b)) <$> l)
  = (λ b, mkRef ("origin/" +:+ name b) (RemoteReference "origin") (commit b))
      <$> List.find (λ b, String.eqb (name b) n) l.
Proof.
  induction l as [|b l IH]; [done|]. rewrite fmap_cons. cbn [List.find name].
  destruct (String.eqb_spec (name b) n) as [Heq|Hne].
  - rewrite <- Heq, String.eqb_refl. reflexivity.
  - destruct (String.eqb_spec ("origin/" +:+ name b) ("origin/" +:+ n)) as [Heq|_];
      [by apply origin_name_inj in Heq | exact IH].
Qed.

(** In a clone, the root branch of the remote [origin] resolves
    exactly when the source has the root branch, unless the source has
    a branch of that odd name checked out. *)
Lemma rev_parse_origin_root src :
  head src ≠ "origin/" +:+ BINSYNC_ROOT_BRANCH →
  rev_parse ("origin/" +:+ BINSYNC_ROOT_BRANCH) (cloned src)
  = commit <$> find_head BINSYNC_ROOT_BRANCH src.
Proof.
  intros Hhead. unfold rev_parse.
  change (String.eqb ("origin/" +:+ BINSYNC_ROOT_BRANCH) "HEAD") with false. cbv iota.
  unfold cloned. cbn [refs].
  assert (Hhd : List.find (λ x, String.eqb (name x) ("origin/" +:+ BINSYNC_ROOT_BRANCH))
                  (match find_head (head src) src with
                   | Some b => [mkRef (name b) Head (commit b)]
                   | None => []
                   end) = None).
  { destruct (find_head (head src) src) as [b|] eqn:Hb; [|done].
    apply find_head_name in Hb as [Hn _]. cbn [List.find name]. rewrite Hn.
    by destruct (String.eqb_spec (head src) ("origin/" +:+ BINSYNC_ROOT_BRANCH)). }
  rewrite (find_app_none _ _ _ Hhd).
  assert (Hrhd : List.find (λ x, String.eqb (name x) ("origin/" +:+ BINSYNC_ROOT_BRANCH))
                   (match find_head (head src) src with
                    | Some b => [mkRef "origin/HEAD" (RemoteReference "origin") (commit b)]
                    | None => []
                    end) = None).
  { by destruct (find_head (head src) src). }
  rewrite (find_app_none _ _ _ Hrhd), find_origin_ref.
  unfold find_head. by destruct (List.find _ (branches src)).
Qed.

(** X20: a URL that hosts a repository without the root branch. With
    the remote left at [origin] and a directory given that is free,
    the construction clones the repository and then fails as not a
    BinSync repository, taking no lock; the clone stays where it was
    made, so that every further construction from a URL into the same
    directory fails in the clone itself. *)
Theorem init_clone_not_binsync u root h ci pid sock now w url src :
  ¬ (ends_with_separator u ∨ mentions_root u) →
  url ≠ EmptyString →
  root ≠ EmptyString →
  hosted w !! url = Some src →
  disk w !! root = None →
  has_root_branch src = false →
  head src ≠ "origin/" +:+ BINSYNC_ROOT_BRANCH →
  ∃ w',
    __init__ u root h "origin" ci false (Some url) pid sock now w
      = (inl NotABinsyncRepo, w')
    ∧ is_Some (disk w' !! root)
    ∧ locks w' = locks w
    ∧ ∀ u2 h2 rem2 ci2 (init2 : bool) url2 pid2 sock2 now2,
        ¬ (ends_with_separator u2 ∨ mentions_root u2) →
        url2 ≠ EmptyString →
        __init__ u2 root h2 rem2 ci2 init2 (Some url2) pid2 sock2 now2 w'
          = (inl GitCommandError, w').
Proof.
  intros Hok Hurl Hroot Hhosted Hdisk Hnoroot Hhead.
  pose proof (attach_url_cloned (newborn u root h "origin" ci pid sock) w url src now
                Hurl Hroot Hhosted Hdisk) as Hrun.
  assert (Hrev : rev_parse ("origin" +:+ "/" +:+ BINSYNC_ROOT_BRANCH) (cloned src) = None).
  { change ("origin" +:+ "/" +:+ BINSYNC_ROOT_BRANCH) with ("origin/" +:+ BINSYNC_ROOT_BRANCH).
    rewrite (rev_parse_origin_root src Hhead).
    destruct (find_head BINSYNC_ROOT_BRANCH src) as [b|] eqn:Hb; [|done].
    unfold has_root_branch in Hnoroot. apply not_true_iff_false in Hnoroot.
    destruct Hnoroot. apply existsb_exists. apply find_some in Hb. by exists b. }
  cbn [remote newborn] in Hrun. unfold create_head in Hrun. rewrite Hrev in Hrun.
  cbn [repo_root newborn] in Hrun.
  eexists. split; [rewrite init_of_attach by done; by rewrite Hrun|].
  split; [cbn [disk]; rewrite lookup_insert_eq; by eexists|]. split; [reflexivity|].
  intros u2 h2 rem2 ci2 init2 url2 pid2 sock2 now2 Hok2 Hurl2.
  rewrite init_of_attach by done.
  rewrite (attach_url_refused (newborn u2 root h2 rem2 ci2 pid2 sock2) _ url2 init2 now2);
    [done | done | done |].
  right. cbn [disk repo_root newborn]. rewrite lookup_insert_eq. by eexists.
Qed.


End FromURL.

Section URLRuns.
Import Spec Scenario.

Lemma init_clone_not_binsync_witness :
  hosted plain_world !! "https://example.org/plain.git" = Some plain_repository
  ∧ has_root_branch plain_repository = false
  ∧ ∃ w',
      __init__ "alice" "/tmp/r2" "aa" "origin" 10 false
        (Some "https://example.org/plain.git") None None 0 plain_world
        = (inl NotABinsyncRepo, w')
      ∧ is_Some (disk w' !! "/tmp/r2")
      ∧ __init__ "alice" "/tmp/r2" "aa" "origin" 10 false
          (Some "https://github.com/user/repo.git") None None 1 w'
        = (inl GitCommandError, w').
Proof.
  assert (Hok : ¬ (ends_with_separator "alice" ∨ mentions_root "alice")).
  { apply username_fit. reflexivity. }
  assert (Hurl : "https://example.org/plain.git" ≠ EmptyString) by discriminate.
  assert (Hurl2 : "https://github.com/user/repo.git" ≠ EmptyString) by discriminate.
  assert (Hroot : "/tmp/r2" ≠ EmptyString) by discriminate.
  assert (Hhead : head plain_repository ≠ "origin/" +:+ BINSYNC_ROOT_BRANCH) by discriminate.
  split; [reflexivity|]. split; [reflexivity|].
  destruct (init_clone_not_binsync "alice" "/tmp/r2" "aa" 10 None None 0 plain_world
              "https://example.org/plain.git" plain_repository
              Hok Hurl Hroot eq_refl eq_refl eq_refl Hhead)
    as (w' & Hrun & Hdisk & _ & Hnext).
  exists w'. split; [exact Hrun|]. split; [exact Hdisk|].
  exact (Hnext "alice" "aa" "origin" 10%Z false "https://github.com/user/repo.git"
           None None 1%Z Hok Hurl2).
Defined.


End URLRuns.

Section DerivedRoot.
Import Spec.
Implicit Types (self : Client.Client) (r src : Repo) (w : World).





End DerivedRoot.

Section DerivedRootRuns.
Import Spec Scenario.


End DerivedRootRuns.
